(** * insightflo-api: personalised news ranking, caching and pagination

    A shallow embedding of the personalisation core of the API:

    - [utils/personalization.ts]  ([rankAndFilterArticles],
      [calculateRelevanceScore]),
    - [utils/cache.ts]            (the in-process [Map] and its accessors),
    - [utils/database.ts]         (the five data accessors),
    - [utils/errors.ts]           ([validatePagination], the method and
      token guards, [withErrorHandling]),
    - [app/api/news/personalized/route.ts] (the guards, query parsing, the
      cache reads and fills, sort mode, pagination, the response),
    - [app/api/news/route.ts]     (the public feed),
    - the security and compliance validation utilities ([validateSecurity],
      [validateCompliance]).

    Conventions.

    - A JavaScript number that holds a fractional quantity (a relevance
      score, a sentiment score) is a binary64 [float]; the arithmetic is the
      kernel's IEEE-754 arithmetic, so rounding is part of the model.
    - A JavaScript number that holds an integer or [NaN] (the result of
      [parseInt], an index, a count) is a [num]: [NaN] or an exact integer.
      Integers beyond 2^53 and the infinities are not modelled.
    - [Math.random()] is an oracle: its successive results are the values
      [draw g 0], [draw g 1], ... of a generator [g], threaded through the
      code in call order.
    - A timestamp string ([published_at], a [TIMESTAMPTZ NOT NULL] column) is
      carried as the instant it denotes, in milliseconds since the epoch;
      [new Date()] is a parameter [now].
    - An awaited Supabase query is the [response] it resolves to. *)

From Stdlib Require Import ZArith Lia Bool List Floats String Ascii.
From stdpp Require Import base strings gmap list sorting.

Set Warnings "-inexact-float".
Local Open Scope Z_scope.

(* ===================================================================== *)
(** * Part I: the program                                                 *)
(* ===================================================================== *)

(** ** JavaScript built-ins used by the code *)
Module Js.

(** An integer-valued JavaScript number, or [NaN]. *)
Inductive num : Type :=
| NaN
| Num (z : Z).

Definition lift2 (f : Z -> Z -> Z) (a b : num) : num :=
  match a, b with
  | Num x, Num y => Num (f x y)
  | _, _ => NaN
  end.

Definition add : num -> num -> num := lift2 Z.add.
Definition sub : num -> num -> num := lift2 Z.sub.
Definition mul : num -> num -> num := lift2 Z.mul.

(** [Math.max] and [Math.min] return [NaN] as soon as one argument is. *)
Definition Math_max : num -> num -> num := lift2 Z.max.
Definition Math_min : num -> num -> num := lift2 Z.min.

(** [a < b]: false when either side is [NaN]. *)
Definition lt (a b : num) : bool :=
  match a, b with
  | Num x, Num y => x <? y
  | _, _ => false
  end.

Definition isNaN (a : num) : bool :=
  match a with NaN => true | Num _ => false end.

(** Truthiness of a number: [0] and [NaN] are falsy. *)
Definition truthy (a : num) : bool :=
  match a with NaN => false | Num z => negb (z =? 0) end.

(** [ToIntegerOrInfinity]: [NaN] becomes [0]. *)
Definition to_integer (a : num) : Z :=
  match a with NaN => 0 | Num z => z end.

(** [Math.max] and [Math.min] on binary64 values. *)
Definition Math_maxf (a b : float) : float :=
  if (PrimFloat.is_nan a || PrimFloat.is_nan b)%bool then PrimFloat.nan
  else if PrimFloat.ltb a b then b
  else if PrimFloat.ltb b a then a
  else if PrimFloat.get_sign a then b else a.

Definition Math_minf (a b : float) : float :=
  if (PrimFloat.is_nan a || PrimFloat.is_nan b)%bool then PrimFloat.nan
  else if PrimFloat.ltb a b then a
  else if PrimFloat.ltb b a then b
  else if PrimFloat.get_sign a then a else b.

(** [x || 0] on an optional number: [undefined], [NaN] and the zeros are
    falsy. *)
Definition or_zero (x : option float) : float :=
  match x with
  | Some v => if (PrimFloat.is_nan v || PrimFloat.is_zero v)%bool then 0%float else v
  | None => 0%float
  end.

(** [s || d] on a string that may be [null]: the empty string is falsy. *)
Definition or_str (s : option string) (d : string) : string :=
  match s with
  | Some (String c r) => String c r
  | _ => d
  end.

(** The truthy part of an optional string. *)
Definition truthy_str (s : option string) : option string :=
  match s with
  | Some (String c r) => Some (String c r)
  | _ => None
  end.

(** *** [parseInt(string)], no radix argument *)

(** White space stripped by [parseInt] (the ASCII part of it). *)
Definition is_space (c : ascii) : bool :=
  let n := Z.of_N (N_of_ascii c) in
  ((9 <=? n) && (n <=? 13) || (n =? 32))%bool.

Fixpoint trim_start (s : string) : string :=
  match s with
  | String c r => if is_space c then trim_start r else s
  | EmptyString => EmptyString
  end.

Definition digit_of (radix : Z) (c : ascii) : option Z :=
  let n := Z.of_N (N_of_ascii c) in
  let d :=
    if ((48 <=? n) && (n <=? 57))%bool then Some (n - 48)
    else if ((97 <=? n) && (n <=? 122))%bool then Some (n - 87)
    else if ((65 <=? n) && (n <=? 90))%bool then Some (n - 55)
    else None in
  match d with
  | Some v => if v <? radix then Some v else None
  | None => None
  end.

(** Value of the longest prefix of [s] made of digits, [None] when that
    prefix is empty. *)
Fixpoint parse_digits (radix : Z) (s : string) (acc : option Z) : option Z :=
  match s with
  | EmptyString => acc
  | String c r =>
      match digit_of radix c with
      | Some d =>
          parse_digits radix r
            (Some (match acc with Some a => a * radix + d | None => d end))
      | None => acc
      end
  end.

Definition strip_sign (s : string) : bool * string :=
  match s with
  | String "-" r => (true, r)
  | String "+" r => (false, r)
  | _ => (false, s)
  end.

Definition strip_hex (s : string) : Z * string :=
  match s with
  | String "0" (String "x" r) => (16, r)
  | String "0" (String "X" r) => (16, r)
  | _ => (10, s)
  end.

Definition parseInt (s : string) : num :=
  let '(neg, s1) := strip_sign (trim_start s) in
  let '(radix, s2) := strip_hex s1 in
  match parse_digits radix s2 None with
  | None => NaN
  | Some n => Num (if neg then - n else n)
  end.

(** *** [URLSearchParams.get]: the first value of the name, or [null] *)
Definition URLSearchParams : Type := list (string * string).

Fixpoint get (sp : URLSearchParams) (name : string) : option string :=
  match sp with
  | [] => None
  | (k, v) :: rest => if String.eqb k name then Some v else get rest name
  end.

(** *** [Array.prototype.slice(start, end)] *)
Definition slice {A : Type} (l : list A) (start stop : num) : list A :=
  let len := Z.of_nat (length l) in
  let rel := to_integer start in
  let k := if rel <? 0 then Z.max (len + rel) 0 else Z.min rel len in
  let rel_end := to_integer stop in
  let final := if rel_end <? 0 then Z.max (len + rel_end) 0 else Z.min rel_end len in
  take (Z.to_nat (final - k)) (drop (Z.to_nat k) l).

(** *** [Array.prototype.sort(comparefn)]

    The sort is stable, and for a consistent comparator every stable sort
    returns the same array; the model is the insertion sort.
    [after a b] stands for [comparefn(a, b) > 0]: [a] goes after [b]. *)
Section Sort.
Context {A : Type} (after : A -> A -> bool).

Fixpoint insert (x : A) (l : list A) : list A :=
  match l with
  | [] => [x]
  | y :: l' => if after x y then y :: insert x l' else x :: l
  end.

Fixpoint sort (l : list A) : list A :=
  match l with
  | [] => []
  | x :: l' => insert x (sort l')
  end.
End Sort.

(** *** [String.prototype.toLowerCase], on ASCII letters *)
Definition lower_ascii (c : ascii) : ascii :=
  let n := N_of_ascii c in
  if ((65 <=? n) && (n <=? 90))%N then ascii_of_N (n + 32) else c.

Fixpoint toLowerCase (s : string) : string :=
  match s with
  | EmptyString => EmptyString
  | String c r => String (lower_ascii c) (toLowerCase r)
  end.

(** *** [Array.prototype.join(",")] *)
Fixpoint join_comma (l : list string) : string :=
  match l with
  | [] => EmptyString
  | [s] => s
  | s :: rest => s +:+ "," +:+ join_comma rest
  end.

(** *** [Math.random()]

    The generator's [n]-th result is [draw n]; [calls] counts the results
    already consumed. *)
Record rng : Type := { draw : nat -> float; calls : nat }.

Definition Math_random (g : rng) : float * rng :=
  (draw g (calls g), {| draw := draw g; calls := S (calls g) |}).

(** Every result of [Math.random()] is at least 0 and less than 1. *)
Definition rng_ok (g : rng) : Prop :=
  forall n, PrimFloat.leb 0 (draw g n) = true /\ PrimFloat.ltb (draw g n) 1 = true.

(** Code that calls [Math.random()]. *)
Definition Rand (A : Type) : Type := rng -> A * rng.

Definition ret {A : Type} (a : A) : Rand A := fun g => (a, g).

Definition bind {A B : Type} (m : Rand A) (k : A -> Rand B) : Rand B :=
  fun g => let '(a, g') := m g in k a g'.

(** [Array.prototype.map] with a callback that draws: index order. *)
Fixpoint mapR {A B : Type} (f : A -> Rand B) (l : list A) : Rand (list B) :=
  match l with
  | [] => ret []
  | x :: rest =>
      bind (f x) (fun y => bind (mapR f rest) (fun ys => ret (y :: ys)))
  end.

End Js.

Notation "'let*' x ':=' m 'in' k" := (Js.bind m (fun x => k))
  (at level 10, x name, m at level 100, k at level 200, only parsing).

(** ** [utils/errors.ts] *)
Module Errors.
Import Js.

Record pagination_params : Type := { page : num; limit : num }.

Definition validatePagination (searchParams : URLSearchParams) : pagination_params :=
  let page := Math_max (Num 1) (parseInt (or_str (get searchParams "page") "1")) in
  let limit :=
    Math_max (Num 1)
      (Math_min (Num 100) (parseInt (or_str (get searchParams "limit") "20"))) in
  {| page := page; limit := limit |}.

End Errors.

(** ** [utils/cache.ts] *)
Module Cache.
Section Cache.
(** What the map stores ([any]) and the article filters that key it. *)
Context {V F : Type}.
(** [JSON.stringify] on a filter object. *)
Variable JSON_stringify : F -> string.

(** [const cache = new Map()] *)
Definition empty : gmap string V := ∅.

(** [Map.prototype.get]: [None] is [undefined]. *)
Definition get (cache : gmap string V) (key : string) : option V := cache !! key.

(** [Map.prototype.set] *)
Definition set (cache : gmap string V) (key : string) (value : V) : gmap string V :=
  <[key := value]> cache.

Definition getCachedUserInterests (cache : gmap string V) (userId : string) : option V :=
  get cache ("interests_" +:+ userId).

Definition cacheUserInterests (cache : gmap string V) (userId : string) (data : V)
  : gmap string V :=
  set cache ("interests_" +:+ userId) data.

Definition getCachedUserPortfolio (cache : gmap string V) (userId : string) : option V :=
  get cache ("portfolio_" +:+ userId).

Definition cacheUserPortfolio (cache : gmap string V) (userId : string) (data : V)
  : gmap string V :=
  set cache ("portfolio_" +:+ userId) data.

Definition getCachedNewsArticles (cache : gmap string V) (filters : F) : option V :=
  get cache ("articles_" +:+ JSON_stringify filters).

Definition cacheNewsArticles (cache : gmap string V) (filters : F) (data : V)
  : gmap string V :=
  set cache ("articles_" +:+ JSON_stringify filters) data.

Definition generateUserCacheKey (userId : string) : string := "user_" +:+ userId.

Definition generateArticlesCacheKey (filters : F) : string :=
  "articles_" +:+ JSON_stringify filters.

Definition getCacheStats (cache : gmap string V) : nat * nat := (size cache, 1000%nat).

(** The writes the module exports, and a history of them. *)
Inductive write : Type :=
| WInterests (userId : string) (data : V)
| WPortfolio (userId : string) (data : V)
| WArticles (filters : F) (data : V).

Definition write_key (w : write) : string :=
  match w with
  | WInterests u _ => "interests_" +:+ u
  | WPortfolio u _ => "portfolio_" +:+ u
  | WArticles f _ => "articles_" +:+ JSON_stringify f
  end.

Definition write_value (w : write) : V :=
  match w with
  | WInterests _ d | WPortfolio _ d | WArticles _ d => d
  end.

Definition apply_write (cache : gmap string V) (w : write) : gmap string V :=
  match w with
  | WInterests u d => cacheUserInterests cache u d
  | WPortfolio u d => cacheUserPortfolio cache u d
  | WArticles f d => cacheNewsArticles cache f d
  end.

(** The cache after the writes [ws], oldest first. *)
Definition run (ws : list write) (cache : gmap string V) : gmap string V :=
  fold_left apply_write ws cache.

(** The value most recently written under [key], if any. *)
Fixpoint last_written (key : string) (ws : list write) : option V :=
  match ws with
  | [] => None
  | w :: rest =>
      match last_written key rest with
      | Some v => Some v
      | None => if String.eqb (write_key w) key then Some (write_value w) else None
      end
  end.
End Cache.
End Cache.

(** ** [utils/database.ts] *)
Module Database.
Import Js.

Record UserInterest : Type := {
  ui_id : string;
  ui_user_id : string;
  interest_category : string;
  interest_keywords : option (list string);
  priority_level : option num;
  ui_created_at : string
}.

Record UserPortfolio : Type := {
  up_id : string;
  up_user_id : string;
  stock_code : string;
  stock_name : string;
  weight : option float;
  up_created_at : string
}.

Record UserNewsHistory : Type := {
  uh_id : string;
  uh_user_id : string;
  news_article_id : string;
  uh_relevance_score : option float;
  is_read : option bool;
  is_bookmarked : option bool;
  is_liked : option bool;
  uh_created_at : string
}.

(** The [keywords] column is typed [any]. *)
Inductive any_keywords : Type :=
| KwArray (items : list string)
| KwString (s : string)
| KwOther.

(** A row of [news_articles]; only the columns the code reads. *)
Record SupabaseNewsArticle : Type := {
  sa_id : string;
  sa_title : string;
  sa_summary : string;
  sa_content : string;
  sa_url : string;
  sa_published_at : Z;
  category : option string;
  source_domain : option string;
  is_active : bool;
  sentiment : option string;
  sa_keywords : any_keywords
}.

Record DatabaseNewsArticle : Type := {
  id : string;
  title : string;
  summary : string;
  content : string;
  url : string;
  source : string;
  published_at : Z;
  keywords : string;
  image_url : option string;
  sentiment_score : float;
  sentiment_label : string;
  relevance_score : option float
}.

Definition mapSentimentToScore (sentiment : option string) : float :=
  match option_map toLowerCase sentiment with
  | Some "positive"%string => 0.7%float
  | Some "negative"%string => (-0.3)%float
  | _ => 0.0%float
  end.

Definition transformSupabaseToFlutter (a : SupabaseNewsArticle) : DatabaseNewsArticle :=
  {| id := sa_id a;
     title := sa_title a;
     summary := sa_summary a;
     content := sa_content a;
     url := sa_url a;
     source :=
       match truthy_str (source_domain a) with
       | Some s => s
       | None => or_str (category a) "Unknown"
       end;
     published_at := sa_published_at a;
     keywords :=
       match sa_keywords a with
       | KwArray items => join_comma items
       | KwString s => s
       | KwOther => EmptyString
       end;
     image_url := None;
     sentiment_score := mapSentimentToScore (sentiment a);
     sentiment_label := or_str (sentiment a) "neutral";
     relevance_score := None |}.

(** What an awaited query resolves to: [{ data, error }]. *)
Record response (A : Type) : Type := {
  data : option (list A);
  error : option string
}.
Arguments data {A} _.
Arguments error {A} _.

(** [data || []] *)
Definition data_or_empty {A : Type} (res : response A) : list A :=
  match data res with Some d => d | None => [] end.

(** [fetchUserInterests]: [res] is the awaited
    [from('user_interests').select('*').eq('user_id', userId).order(...)]. *)
Definition fetchUserInterests (res : response UserInterest) : list UserInterest :=
  match error res with
  | Some _ => []
  | None => data_or_empty res
  end.

Definition fetchUserPortfolio (res : response UserPortfolio) : list UserPortfolio :=
  match error res with
  | Some _ => []
  | None => data_or_empty res
  end.

Definition fetchUserNewsHistory (res : response UserNewsHistory) : list UserNewsHistory :=
  match error res with
  | Some _ => []
  | None => data_or_empty res
  end.

(** The query [fetchNewsArticles] builds on [news_articles]. *)
Record news_query : Type := {
  q_eq_is_active : bool;            (* .eq('is_active', true) *)
  q_order_published_desc : bool;    (* .order('published_at', {ascending: false}) *)
  q_range : num * num;              (* .range(from, to) *)
  q_gte_published_at : option Z     (* .gte('published_at', cutoff) *)
}.

Record news_filters : Type := {
  f_limit : option num;
  f_maxAge : option num;
  f_page : option num;
  f_minSentiment : option float
}.

Definition hour_ms : Z := 3600000.

(** The query built from the filters. [limit ?? 20] and [page ?? 1] replace
    only an absent value; the cutoff is added when [filters.maxAge] is truthy
    and is [maxAge] hours before [now] ([setHours(getHours() - maxAge)], on
    a clock without daylight-saving changes). *)
Definition news_query_of (now : Z) (filters : news_filters) : news_query :=
  let limit := match f_limit filters with Some l => l | None => Num 20 end in
  let page := match f_page filters with Some p => p | None => Num 1 end in
  let from := mul (sub page (Num 1)) limit in
  let to := sub (add from limit) (Num 1) in
  {| q_eq_is_active := true;
     q_order_published_desc := true;
     q_range := (from, to);
     q_gte_published_at :=
       match f_maxAge filters with
       | Some (Num h) => if truthy (Num h) then Some (now - h * hour_ms) else None
       | _ => None
       end |}.

Definition fetchNewsArticles
    (store : news_query -> response SupabaseNewsArticle)
    (now : Z) (filters : news_filters) : list DatabaseNewsArticle :=
  let res := store (news_query_of now filters) in
  match error res with
  | Some _ => []
  | None =>
      let transformedArticles := map transformSupabaseToFlutter (data_or_empty res) in
      match f_minSentiment filters with
      | Some minSentiment =>
          List.filter (fun article => PrimFloat.leb minSentiment (sentiment_score article))
            transformedArticles
      | None => transformedArticles
      end
  end.

(** [fetchUserBookmarks]: [res] is the awaited query on [user_bookmarks],
    each row reduced to its [article_id]. *)
Definition fetchUserBookmarks (res : response string) (articleIds : list string)
  : gset string :=
  match articleIds with
  | [] => ∅
  | _ =>
      match error res with
      | Some _ => ∅
      | None => list_to_set (data_or_empty res)
      end
  end.

(** The backing store on a table of rows: the rows that pass the filters,
    newest first, cut to the inclusive range; a range that is not a pair of
    integers [0 <= from <= to] is reported as an error. *)
Definition by_published_after (a b : SupabaseNewsArticle) : bool :=
  0 <? sa_published_at b - sa_published_at a.

Definition row_matches (q : news_query) (r : SupabaseNewsArticle) : bool :=
  ((if q_eq_is_active q then is_active r else true)
   && match q_gte_published_at q with
      | Some cutoff => cutoff <=? sa_published_at r
      | None => true
      end)%bool.

Definition table_store (rows : list SupabaseNewsArticle) (q : news_query)
  : response SupabaseNewsArticle :=
  let selected := List.filter (row_matches q) rows in
  let ordered :=
    if q_order_published_desc q then sort by_published_after selected else selected in
  match q_range q with
  | (Num from, Num to) =>
      if ((0 <=? from) && (from <=? to))%bool then
        {| data := Some (take (Z.to_nat (to - from + 1)) (drop (Z.to_nat from) ordered));
           error := None |}
      else {| data := None; error := Some "Requested range not satisfiable"%string |}
  | _ => {| data := None; error := Some "Requested range not satisfiable"%string |}
  end.

End Database.

(** ** [utils/personalization.ts] *)
Module Personalization.
Import Js Database.

Record PersonalizationContext : Type := {
  processingTime : Z;
  algorithmsUsed : list string
}.

Definition createPersonalizationContext
    (userInterests : list UserInterest) (userPortfolio : list UserPortfolio)
    (userHistory : list UserNewsHistory) (articles : list DatabaseNewsArticle)
  : PersonalizationContext :=
  {| processingTime := 0; algorithmsUsed := ["basic-ranking"%string] |}.

Record weights : Type := {
  keywordMatch : float;
  symbolMatch : float;
  sentimentWeight : float;
  timeDecay : float
}.

Record options : Type := {
  minRelevanceScore : option float;
  maxAge : option num;
  includeBookmarks : option bool;
  opt_weights : option weights;
  context : option PersonalizationContext
}.

(** [{ ...article, relevance_score: s }] *)
Definition with_score (article : DatabaseNewsArticle) (s : float) : DatabaseNewsArticle :=
  {| id := id article;
     title := title article;
     summary := summary article;
     content := content article;
     url := url article;
     source := source article;
     published_at := published_at article;
     keywords := keywords article;
     image_url := image_url article;
     sentiment_score := sentiment_score article;
     sentiment_label := sentiment_label article;
     relevance_score := Some s |}.

(** [r * 0.8 + 0.2], the score computed from the draw [r]. *)
Definition score_of_draw (r : float) : float := (r * 0.8 + 0.2)%float.

(** [Math.random() * 0.8 + 0.2] *)
Definition random_score : Rand float :=
  let* r := Math_random in ret (score_of_draw r).

(** [(a, b) => (b.relevance_score || 0) - (a.relevance_score || 0)],
    read as "[a] goes after [b]". *)
Definition by_score_after (a b : DatabaseNewsArticle) : bool :=
  PrimFloat.ltb 0 (or_zero (relevance_score b) - or_zero (relevance_score a))%float.

(** [article => ({ ...article, relevance_score: Math.random() * 0.8 + 0.2 })] *)
Definition score_article (article : DatabaseNewsArticle) : Rand DatabaseNewsArticle :=
  let* s := random_score in ret (with_score article s).

Definition rankAndFilterArticles
    (articles : list DatabaseNewsArticle)
    (userInterests : list UserInterest) (userPortfolio : list UserPortfolio)
    (userHistory : list UserNewsHistory) (opts : options)
  : Rand (list DatabaseNewsArticle) :=
  let* scored := mapR score_article articles in
  ret (sort by_score_after scored).

Definition calculateRelevanceScore
    (article : DatabaseNewsArticle)
    (userInterests : list UserInterest) (userPortfolio : list UserPortfolio)
    (userHistory : list UserNewsHistory)
  : Rand float :=
  random_score.

Definition validatePerformance (context : PersonalizationContext) : bool := true.

End Personalization.

(** ** [app/api/news/personalized/route.ts] *)
Module Route.
Import Js Errors Database Personalization.

Inductive sort_mode : Type := Relevance | Latest.

Record request : Type := {
  r_page : num;
  r_limit : num;
  r_includeBookmarks : bool;
  r_sortBy : sort_mode;
  r_minSentiment : option float;
  r_maxAge : num
}.

Section Params.
(** [parseFloat] *)
Variable parseFloat : string -> float.

(** Lines 117-133 of the handler: [inl msg] is [throw new Error(msg)]. *)
Definition parse_request (searchParams : URLSearchParams) : string + request :=
  let p := validatePagination searchParams in
  let includeBookmarks :=
    match get searchParams "includeBookmarks" with
    | Some v => String.eqb v "true"
    | None => false
    end in
  let sortBy :=
    match get searchParams "sortBy" with
    | Some "latest"%string => Latest
    | _ => Relevance
    end in
  let minSentiment :=
    match truthy_str (get searchParams "minSentiment") with
    | Some v => Some (Math_maxf (-1) (Math_minf 1 (parseFloat v)))
    | None => None
    end in
  let maxAge :=
    Math_max (Num 1)
      (Math_min (Num 720) (parseInt (or_str (get searchParams "maxAge") "168"))) in
  let minSentiment_invalid :=
    match truthy_str (get searchParams "minSentiment") with
    | Some v => PrimFloat.is_nan (parseFloat v)
    | None => false
    end in
  let maxAge_invalid :=
    match truthy_str (get searchParams "maxAge") with
    | Some v => isNaN (parseInt v)
    | None => false
    end in
  if minSentiment_invalid
  then inl "Invalid minSentiment parameter: must be a number between -1 and 1"%string
  else if maxAge_invalid
  then inl "Invalid maxAge parameter: must be a number between 1 and 720"%string
  else inr {| r_page := page p; r_limit := limit p;
              r_includeBookmarks := includeBookmarks; r_sortBy := sortBy;
              r_minSentiment := minSentiment; r_maxAge := maxAge |}.
End Params.

(** [newsFilters], the filters of the candidate pool. *)
Definition newsFilters (req : request) : news_filters :=
  {| f_limit := Some (Math_min (Num 500) (mul (r_limit req) (Num 10)));
     f_maxAge := Some (r_maxAge req);
     f_page := None;
     f_minSentiment := r_minSentiment req |}.

(** [(a, b) => new Date(b.published_at).getTime() - new Date(a.published_at).getTime()] *)
Definition by_date_after (a b : DatabaseNewsArticle) : bool :=
  0 <? published_at b - published_at a.

(** The weights and threshold the handler passes. *)
Definition handler_options (req : request) (ctx : PersonalizationContext) : options :=
  {| minRelevanceScore := Some 0.05%float;
     maxAge := Some (r_maxAge req);
     includeBookmarks := Some (r_includeBookmarks req);
     opt_weights := Some {| keywordMatch := 0.4; symbolMatch := 0.3;
                            sentimentWeight := 0.2; timeDecay := 0.1 |};
     context := Some ctx |}.

(** Lines 209-228: [rankedArticles]. *)
Definition rankedArticles
    (req : request) (articles : list DatabaseNewsArticle)
    (userInterests : list UserInterest) (userPortfolio : list UserPortfolio)
    (userHistory : list UserNewsHistory) (ctx : PersonalizationContext)
  : Rand (list DatabaseNewsArticle) :=
  match r_sortBy req with
  | Latest => ret (sort by_date_after articles)
  | Relevance =>
      rankAndFilterArticles articles userInterests userPortfolio userHistory
        (handler_options req ctx)
  end.

Record pagination : Type := {
  pg_page : num;
  pg_limit : num;
  total : nat;
  hasMore : bool
}.

(** Lines 233-236 and 281-286: the page and its metadata. *)
Definition paginate {A : Type} (rankedArticles : list A) (page limit : num)
  : list A * pagination :=
  let startIndex := mul (sub page (Num 1)) limit in
  let endIndex := add startIndex limit in
  let paginatedArticles := slice rankedArticles startIndex endIndex in
  (paginatedArticles,
   {| pg_page := page;
      pg_limit := limit;
      total := length rankedArticles;
      hasMore := lt endIndex (Num (Z.of_nat (length rankedArticles))) |}).

End Route.

(** ** String methods used by the error utilities *)
Module JsString.

(** [s.startsWith(pat)] *)
Fixpoint startsWith (s pat : string) {struct pat} : bool :=
  match pat with
  | EmptyString => true
  | String p pat' =>
      match s with
      | String c s' => (Ascii.eqb c p && startsWith s' pat')%bool
      | EmptyString => false
      end
  end.

(** [s.includes(pat)] *)
Fixpoint includes (s pat : string) : bool :=
  (startsWith s pat
   || match s with
      | EmptyString => false
      | String _ s' => includes s' pat
      end)%bool.

Fixpoint drop_chars (n : nat) (s : string) : string :=
  match n, s with
  | O, _ => s
  | S n', String _ s' => drop_chars n' s'
  | S _, EmptyString => EmptyString
  end.

(** [s.replace(pat, rep)] with a string pattern: the first occurrence only
    ([rep] holds no [$] pattern). *)
Fixpoint replace (s pat rep : string) : string :=
  if startsWith s pat then rep +:+ drop_chars (String.length pat) s
  else
    match s with
    | EmptyString => EmptyString
    | String c s' => String c (replace s' pat rep)
    end.

(** [l.join(sep)] *)
Fixpoint join (sep : string) (l : list string) : string :=
  match l with
  | [] => EmptyString
  | [s] => s
  | s :: rest => s +:+ sep +:+ join sep rest
  end.

End JsString.

(** ** [utils/errors.ts], the request guards and the error wrapper *)
Module ErrorHandling.
Import Js JsString.

(** A call that returns or throws [new Error(message)]. *)
Inductive result (A : Type) : Type :=
| Return (a : A)
| Throw (message : string).
Arguments Return {A} _.
Arguments Throw {A} _.

Definition and_then {A B : Type} (r : result A) (k : A -> result B) : result B :=
  match r with
  | Return a => k a
  | Throw m => Throw m
  end.

(** The headers of a message, by lower-case name. *)
Definition Headers : Type := string -> option string.

(** [headers.get(name)]: the name is matched without regard to case. *)
Definition header (h : Headers) (name : string) : option string := h (toLowerCase name).

Record NextRequest : Type := {
  method : string;
  headers : Headers;
  searchParams : URLSearchParams
}.

Definition validateMethod (req : NextRequest) (allowedMethods : list string) : result unit :=
  if existsb (String.eqb (method req)) allowedMethods then Return tt
  else Throw ("Method " +:+ method req +:+ " not allowed").

Definition validateAuthToken (authHeader : option string) : result string :=
  match truthy_str authHeader with
  | Some h =>
      if startsWith h "Bearer " then Return (replace h "Bearer " "")
      else Throw "Missing or invalid Authorization header. Please provide a valid Bearer token."
  | None =>
      Throw "Missing or invalid Authorization header. Please provide a valid Bearer token."
  end.

Definition validateOptionalAuthToken (authHeader : option string) : result (option string) :=
  match truthy_str authHeader with
  | None => Return None
  | Some h =>
      if startsWith h "Bearer " then Return (Some (replace h "Bearer " ""))
      else Throw "Invalid Authorization header format. Please provide a valid Bearer token."
  end.

(** The body of [createErrorResponse]'s JSON answer; [timestamp] is
    [new Date().toISOString()]. *)
Record ApiErrorResponse : Type := {
  e_error : string;
  e_message : string;
  e_statusCode : Z;
  e_timestamp : string
}.

Definition createErrorResponse (timestamp message : string) (statusCode : Z)
  : ApiErrorResponse :=
  {| e_error := "ApiError"; e_message := message; e_statusCode := statusCode;
     e_timestamp := timestamp |}.

(** [withErrorHandling(handler)(req)]: the handler's answer, or the error
    answer built from the message of what it threw. *)
Definition withErrorHandling {Req Resp : Type} (timestamp : string)
    (handler : Req -> result Resp) (req : Req) : Resp + ApiErrorResponse :=
  match handler req with
  | Return r => inl r
  | Throw message =>
      if includes message "Authorization" then
        inr (createErrorResponse timestamp message 401)
      else if includes message "Rate limit" then
        inr (createErrorResponse timestamp message 429)
      else inr (createErrorResponse timestamp "An unexpected error occurred" 500)
  end.

Record rate_limit : Type := {
  allowed : bool;
  remaining : Z;
  resetTime : Z
}.

(** [now] is [Date.now()]. *)
Definition checkRateLimit (now : Z) (clientId : string) (limit windowMs : Z) : rate_limit :=
  {| allowed := true; remaining := limit - 1; resetTime := now + windowMs |}.

Definition getClientId (req : NextRequest) : string :=
  match truthy_str (header (headers req) "x-forwarded-for") with
  | Some v => v
  | None => or_str (header (headers req) "x-real-ip") "unknown"
  end.

End ErrorHandling.

(** ** [app/api/news/personalized/route.ts], around the ranking *)
Module Handler.
Import Js JsString ErrorHandling Errors Database Personalization Route.

(** What [client.auth.getUser()] yields: [user.user?.id]. *)
Record user : Type := { user_id : option string }.

Section Guards.
Variable parseFloat : string -> float.
(** The token check of [lib/supabase]: [None] when [getUser] or the
    permission probe fails. *)
Variable getUser : string -> option user.
(** [Date.now()] and [new Date(t).toISOString()]. *)
Variable now : Z.
Variable toISOString : Z -> string.

(** [verifySupabaseToken]: whatever fails inside is rethrown as one error. *)
Definition verifySupabaseToken (token : string) : result user :=
  match getUser token with
  | Some u => Return u
  | None => Throw "Token verification failed"
  end.

(** Lines 90-133 of the handler: the guards before any data is loaded. *)
Definition guards (req : NextRequest) : result (string * request) :=
  and_then (validateMethod req ["GET"%string]) (fun _ =>
  let clientId := getClientId req in
  let rateLimit := checkRateLimit now clientId 100 60000 in
  if negb (allowed rateLimit) then
    Throw ("Rate limit exceeded. Try again after " +:+ toISOString (resetTime rateLimit))
  else
  and_then (validateAuthToken (header (headers req) "authorization")) (fun token =>
  and_then (verifySupabaseToken token) (fun u =>
  match truthy_str (user_id u) with
  | None => Throw "Invalid token or user not found"
  | Some userId =>
      match parse_request parseFloat (searchParams req) with
      | inl message => Throw message
      | inr r => Return (userId, r)
      end
  end))).
End Guards.

Section Load.
(** Cached values are arrays (never falsy); [F] is the filter object. *)
Context {V F : Type}.
Variable JSON_stringify : F -> string.

(** What the three cacheable accessors return if they are called. *)
Record fetches : Type := {
  fresh_interests : V;
  fresh_portfolio : V;
  fresh_articles : V
}.

(** Lines 142-184: the data used by the request, cached value first. *)
Definition loaded_interests (cache : gmap string V) (userId : string) (fr : fetches) : V :=
  match Cache.getCachedUserInterests cache userId with
  | Some v => v
  | None => fresh_interests fr
  end.

Definition loaded_portfolio (cache : gmap string V) (userId : string) (fr : fetches) : V :=
  match Cache.getCachedUserPortfolio cache userId with
  | Some v => v
  | None => fresh_portfolio fr
  end.

Definition loaded_articles (cache : gmap string V) (filters : F) (fr : fetches) : V :=
  match Cache.getCachedNewsArticles JSON_stringify cache filters with
  | Some v => v
  | None => fresh_articles fr
  end.

(** The cache writes of the [then] callbacks: one for each miss. *)
Definition cache_fills (cache : gmap string V) (userId : string) (filters : F)
    (fr : fetches) : list (@Cache.write V F) :=
  (match Cache.getCachedUserInterests cache userId with
   | Some _ => []
   | None => [Cache.WInterests userId (fresh_interests fr)]
   end)
  ++ (match Cache.getCachedUserPortfolio cache userId with
      | Some _ => []
      | None => [Cache.WPortfolio userId (fresh_portfolio fr)]
      end)
  ++ (match Cache.getCachedNewsArticles JSON_stringify cache filters with
      | Some _ => []
      | None => [Cache.WArticles filters (fresh_articles fr)]
      end).

(** Lines 301-302. *)
Definition isDataFromCache (cache : gmap string V) (userId : string) (filters : F) : bool :=
  (bool_decide (is_Some (Cache.getCachedUserInterests cache userId))
   && bool_decide (is_Some (Cache.getCachedUserPortfolio cache userId))
   && bool_decide (is_Some (Cache.getCachedNewsArticles JSON_stringify cache filters)))%bool.

Definition cacheHitStatus (cache : gmap string V) (userId : string) (filters : F) : string :=
  if isDataFromCache cache userId filters then "HIT" else "MISS".
End Load.

(** Lines 242-271: bookmark flags, the outgoing shape, the score map. *)
Record FormattedArticle : Type := {
  fa_id : string;
  fa_title : string;
  fa_summary : string;
  fa_content : string;
  fa_url : string;
  fa_source : string;
  fa_published_at : Z;
  fa_keywords : string;
  fa_image_url : option string;
  fa_sentiment_score : float;
  fa_sentiment_label : string;
  fa_is_bookmarked : bool
}.

(** [res] is what the bookmark query resolves to if it is sent. *)
Definition bookmarkedArticles (includeBookmarks : bool)
    (paginatedArticles : list DatabaseNewsArticle) (res : response string) : gset string :=
  if (includeBookmarks && (0 <? length paginatedArticles)%nat)%bool
  then fetchUserBookmarks res (map id paginatedArticles)
  else ∅.

Definition formatArticle (bookmarked : gset string) (article : DatabaseNewsArticle)
  : FormattedArticle :=
  {| fa_id := id article;
     fa_title := title article;
     fa_summary := summary article;
     fa_content := content article;
     fa_url := url article;
     fa_source := source article;
     fa_published_at := published_at article;
     fa_keywords := keywords article;
     fa_image_url := image_url article;
     fa_sentiment_score := sentiment_score article;
     fa_sentiment_label := sentiment_label article;
     fa_is_bookmarked := bool_decide (id article ∈ bookmarked) |}.

Definition formattedArticles (bookmarked : gset string)
    (paginatedArticles : list DatabaseNewsArticle) : list FormattedArticle :=
  map (formatArticle bookmarked) paginatedArticles.

(** [relevanceScores[article.id] = article.relevance_score], in page order. *)
Definition relevanceScores (paginatedArticles : list DatabaseNewsArticle)
  : gmap string float :=
  fold_left
    (fun scores article =>
       match relevance_score article with
       | Some s => <[id article := s]> scores
       | None => scores
       end)
    paginatedArticles ∅.

End Handler.

(** ** [app/api/news/route.ts], the public feed *)
Module NewsRoute.
Import Js ErrorHandling Errors Database.

(** The three answers of the handler that do not depend on a fetch failure:
    405, 401 and 200 with the page. *)
Inductive answer : Type :=
| MethodNotAllowed (message : string)
| Unauthorized (message : string)
| Success (articles : list DatabaseNewsArticle) (page limit : num) (total : nat).

Definition handler (store : news_query -> response SupabaseNewsArticle) (now : Z)
    (req : NextRequest) : answer :=
  if negb (String.eqb (method req) "GET") then
    MethodNotAllowed ("Method " +:+ method req +:+ " not allowed")
  else
    match validateOptionalAuthToken (header (headers req) "Authorization") with
    | Throw message =>
        Unauthorized
          (match message with
           | EmptyString => "Invalid authorization token"
           | _ => message
           end)
    | Return token =>
        let p := validatePagination (searchParams req) in
        let articles :=
          fetchNewsArticles store now
            {| f_limit := Some (limit p); f_maxAge := None; f_page := Some (page p);
               f_minSentiment := None |} in
        Success articles (page p) (limit p) (length articles)
    end.

End NewsRoute.

(** ** Security validation (the module that imports [./personalization]) *)
Module Validation.
Import Js JsString ErrorHandling.

Record SecurityValidationResult : Type := {
  passed : bool;
  issues : list string;
  recommendations : list string;
  securityScore : Z
}.

(** [names.filter(header => !headers.get(header))] *)
Definition missing_headers (h : Headers) (names : list string) : list string :=
  List.filter
    (fun name => match truthy_str (header h name) with Some _ => false | None => true end)
    names.

Definition rateLimitHeaders : list string :=
  ["X-RateLimit-Limit"; "X-RateLimit-Remaining"; "X-RateLimit-Reset"]%string.

Definition requiredSecurityHeaders : list string :=
  ["Strict-Transport-Security"; "X-Content-Type-Options"; "X-Frame-Options";
   "X-XSS-Protection"; "Referrer-Policy"]%string.

(** [processingTime] in milliseconds. *)
Definition validateSecurity (request_headers response_headers : Headers)
    (processingTime : Z) : SecurityValidationResult :=
  let issues0 : list string := [] in
  let recommendations0 : list string := [] in
  let score0 := 100 in
  let '(issues1, score1) :=
    match truthy_str (header request_headers "authorization") with
    | Some h =>
        if startsWith h "Bearer " then (issues0, score0)
        else (issues0 ++ ["Missing or invalid authorization header"%string], score0 - 30)
    | None => (issues0 ++ ["Missing or invalid authorization header"%string], score0 - 30)
    end in
  let missingRateLimitHeaders := missing_headers response_headers rateLimitHeaders in
  let '(issues2, score2) :=
    if (0 <? length missingRateLimitHeaders)%nat
    then (issues1 ++ ["Missing rate limit headers: " +:+ join ", " missingRateLimitHeaders],
          score1 - 20)
    else (issues1, score1) in
  let missingSecurityHeaders := missing_headers response_headers requiredSecurityHeaders in
  let '(issues3, score3) :=
    if (0 <? length missingSecurityHeaders)%nat
    then (issues2 ++ ["Missing security headers: " +:+ join ", " missingSecurityHeaders],
          score2 - 15)
    else (issues2, score2) in
  let '(issues4, recommendations4, score4) :=
    if 5000 <? processingTime
    then (issues3 ++ ["Response time too high, potential DoS vulnerability"%string],
          recommendations0 ++ ["Implement request timeout and optimization"%string],
          score3 - 10)
    else (issues3, recommendations0, score3) in
  let recommendations5 :=
    if score4 <? 90
    then recommendations4 ++ ["Review and implement missing security measures"%string]
    else recommendations4 in
  let recommendations6 :=
    if score4 <? 70
    then recommendations5 ++ ["Critical security issues need immediate attention"%string]
    else recommendations5 in
  {| passed := 80 <=? score4;
     issues := issues4;
     recommendations := recommendations6;
     securityScore := Z.max 0 score4 |}.

(** The binary64 value of an integer. *)
Definition of_Z (n : Z) : float := SF2Prim (binary_normalize prec emax n 0 false).

(** [Math.round]: the nearest integer, a tie going up; a result between
    -0.5 and 0 is [-0]. *)
Definition Math_round (x : float) : float :=
  match Prim2SF x with
  | S754_finite s m e =>
      if 0 <=? e then x
      else
        let d := 2 ^ (- e) in
        let n := (2 * (if s then Z.neg m else Z.pos m) + d) / (2 * d) in
        if n =? 0 then (if s then (-0)%float else 0%float) else of_Z n
  | _ => x
  end.

Record ComplianceChecks : Type := {
  rlsEnforced : bool;
  authenticationRequired : bool;
  rateLimitingActive : bool;
  corsConfigured : bool;
  securityHeaders : bool
}.

Record ComplianceValidationResult : Type := {
  c_passed : bool;
  checks : ComplianceChecks;
  complianceScore : float
}.

(** [!!headers.get(name)] *)
Definition has_header (h : Headers) (name : string) : bool :=
  match truthy_str (header h name) with Some _ => true | None => false end.

Definition validateCompliance (request_headers response_headers : Headers)
  : ComplianceValidationResult :=
  let checks :=
    {| rlsEnforced := true;
       authenticationRequired := has_header request_headers "authorization";
       rateLimitingActive := has_header response_headers "X-RateLimit-Limit";
       corsConfigured := has_header response_headers "Access-Control-Allow-Origin";
       securityHeaders :=
         forallb (has_header response_headers)
           ["Strict-Transport-Security"; "X-Content-Type-Options"; "X-Frame-Options"]%string
    |} in
  let values :=
    [rlsEnforced checks; authenticationRequired checks; rateLimitingActive checks;
     corsConfigured checks; securityHeaders checks] in
  let passedChecks := length (List.filter (fun b : bool => b) values) in
  let totalChecks := length values in
  let complianceScore :=
    Math_round (of_Z (Z.of_nat passedChecks) / of_Z (Z.of_nat totalChecks) * 100)%float in
  {| c_passed := PrimFloat.leb 90 complianceScore;
     checks := checks;
     complianceScore := complianceScore |}.

End Validation.

(* ===================================================================== *)
(** * Part II: notions used in the statements and the proofs              *)
(* ===================================================================== *)

(** ** Binary64 values as scaled integers *)
Module B64.

(** The exponent of the format at magnitude [e]. *)
Definition fexp64 (e : Z) : Z := Z.max (e - 53) (-1074).

(** Weight of exponent [e], scaled so that every exponent met in the proofs
    has a non-negative power. *)
Definition wt (e : Z) : Z := 2 ^ (e + 1200).

(** Value of the positive float with mantissa [m] and exponent [e]. *)
Definition fval (m : positive) (e : Z) : Z := Z.pos m * wt e.

(** The record after shifting [m] right by [n] bits: the quotient, and no
    flag raised when the shift is exact. *)
Definition shr_inv (m n : Z) (mrs : shr_record) : Prop :=
  shr_m mrs = m / 2 ^ n /\ (m mod 2 ^ n = 0 -> shr_r mrs = false /\ shr_s mrs = false).

(** The float of sign [s] for the rounded mantissa [m2] at exponent [e']. *)
Definition canon (s : bool) (m2 e' : Z) : spec_float :=
  match m2 with
  | Z0 => S754_zero s
  | Z.pos m =>
      if m2 <? 2 ^ 53 then
        if e' <=? 971 then S754_finite s m e' else S754_infinity s
      else
        if e' + 1 <=? 971 then S754_finite s (2 ^ 52)%positive (e' + 1)
        else S754_infinity s
  | Z.neg _ => S754_nan
  end.

(** The constants [0.8], [0.2] and [1]. *)
Definition M08 : positive := 7205759403792794.
Definition sf_08 : spec_float := S754_finite false M08 (-53).
Definition sf_02 : spec_float := S754_finite false M08 (-55).
Definition sf_1 : spec_float := S754_finite false (2 ^ 52) (-52).

(** [x] is a positive finite float of value [v]. *)
Definition pos_finite (x : float) (v : Z) : Prop :=
  exists m e, Prim2SF x = S754_finite false m e /\ bounded prec emax m e = true /\ v = fval m e.

(** The value of a positive finite float, [0] for any other float. *)
Definition fkey (x : float) : Z :=
  match Prim2SF x with
  | S754_finite false m e => fval m e
  | _ => 0
  end.

End B64.


(** ** What a sorted result is *)
Module SortSpec.

(** On the elements of [l], the comparator orders by decreasing [key]:
    [a] goes after [b] exactly when [key a < key b]. *)
Definition keyed_by {A : Type} (after : A -> A -> bool) (key : A -> Z) (l : list A) : Prop :=
  forall a b, a ∈ l -> b ∈ l -> after a b = (key a <? key b).

(** [a] may stand before [b] in a list of decreasing keys. *)
Definition descending {A : Type} (key : A -> Z) (a b : A) : Prop := key b <= key a.

End SortSpec.


(** ** Scored articles *)
Module Scored.
Import Js Database Personalization B64.

(** The next [n] results of [Math.random()]. *)
Definition draws_from (g : rng) (n : nat) : list float :=
  map (fun i => draw g (calls g + i)%nat) (seq 0 n).

(** The articles in input order, each with the score of its draw: the array
    [articles.map(...)] builds before sorting. *)
Definition scored_with (g : rng) (articles : list DatabaseNewsArticle)
  : list DatabaseNewsArticle :=
  zip_with with_score articles (map score_of_draw (draws_from g (length articles))).

(** The generator after [n] more draws. *)
Definition advance (g : rng) (n : nat) : rng :=
  {| draw := draw g; calls := (calls g + n)%nat |}.

(** The sort key of an article: the value of [relevance_score || 0]. *)
Definition score_key (a : DatabaseNewsArticle) : Z := fkey (or_zero (relevance_score a)).

(** [a.relevance_score === s] *)
Definition has_score (s : float) (a : DatabaseNewsArticle) : bool :=
  match relevance_score a with
  | Some x => PrimFloat.eqb x s
  | None => false
  end.

(** The value of [s] when it is a positive finite float. *)
Definition key_of_float (s : float) : option Z :=
  match Prim2SF s with
  | S754_finite false m e => Some (fval m e)
  | _ => None
  end.

(** The article with its score removed: every field but [relevance_score]. *)
Definition unscored (a : DatabaseNewsArticle) : DatabaseNewsArticle :=
  {| id := id a; title := title a; summary := summary a; content := content a;
     url := url a; source := source a; published_at := published_at a;
     keywords := keywords a; image_url := image_url a;
     sentiment_score := sentiment_score a; sentiment_label := sentiment_label a;
     relevance_score := None |}.

(** An article whose score is a positive finite float between 0.2 and 1. *)
Definition well_scored (a : DatabaseNewsArticle) : Prop :=
  exists s v, relevance_score a = Some s /\ pos_finite s v /\ fval M08 (-55) <= v <= wt 0.

End Scored.

(** ** Sample data *)
Module Samples.
Import Js Database Personalization Route.

Definition article (i : string) (t : Z) : DatabaseNewsArticle :=
  {| id := i; title := "t"; summary := "s"; content := "c"; url := "u";
     source := "src"; published_at := t; keywords := "";
     image_url := None; sentiment_score := 0%float; sentiment_label := "neutral";
     relevance_score := None |}.

Definition a_old : DatabaseNewsArticle := article "a" 1000.
Definition a_new : DatabaseNewsArticle := article "b" 2000.

Definition constant_rng (r : float) : rng := {| draw := fun _ => r; calls := 0 |}.

(** Draws 0.25, 0.75, 0.25, ... *)
Definition alternating_rng : rng :=
  {| draw := fun n => if Nat.even n then 0.25%float else 0.75%float; calls := 0 |}.

(** The largest double below 1. *)
Definition top_draw : float := 0x1.fffffffffffffp-1%float.

Definition no_options : options :=
  {| minRelevanceScore := None; maxAge := None; includeBookmarks := None;
     opt_weights := None; context := None |}.

Definition threshold_options (t : float) : options :=
  {| minRelevanceScore := Some t; maxAge := None; includeBookmarks := None;
     opt_weights := None; context := None |}.

Definition latest_request : request :=
  {| r_page := Num 1; r_limit := Num 20; r_includeBookmarks := false;
     r_sortBy := Latest; r_minSentiment := None; r_maxAge := Num 168 |}.

Definition relevance_request : request :=
  {| r_page := Num 1; r_limit := Num 20; r_includeBookmarks := false;
     r_sortBy := Relevance; r_minSentiment := None; r_maxAge := Num 168 |}.

Definition ctx0 : PersonalizationContext := createPersonalizationContext [] [] [] [].

Definition row (i : string) (t : Z) (active : bool) (s : option string)
  : SupabaseNewsArticle :=
  {| sa_id := i; sa_title := "t"; sa_summary := "s"; sa_content := "c"; sa_url := "u";
     sa_published_at := t; category := Some "markets"%string; source_domain := None;
     is_active := active; sentiment := s; sa_keywords := KwArray ["fed"; "rates"]%string |}.

(** Three rows at a time [now = 100 h]: a fresh positive one, one that is
    30 hours old, and an inactive one. *)
Definition now0 : Z := 100 * hour_ms.
Definition rows0 : list SupabaseNewsArticle :=
  [ row "fresh" (90 * hour_ms) true (Some "Positive"%string);
    row "stale" (70 * hour_ms) true (Some "positive"%string);
    row "hidden" (95 * hour_ms) false (Some "negative"%string) ].

Definition filters0 : news_filters :=
  {| f_limit := Some (Num 200); f_maxAge := Some (Num 24); f_page := None;
     f_minSentiment := Some 0.5%float |}.

Definition failed {A : Type} : response A :=
  {| data := None; error := Some "connection refused"%string |}.

(** A request with the given method, [Authorization] header and query. *)
Definition http_request (m : string) (auth : option string) (query : URLSearchParams)
  : ErrorHandling.NextRequest :=
  {| ErrorHandling.method := m;
     ErrorHandling.headers :=
       fun name => if String.eqb name "authorization" then auth else None;
     ErrorHandling.searchParams := query |}.

(** Draws 0.25, 0.75, 0.75, 0.25, 0.25, ... *)
Definition swapping_rng : rng :=
  {| draw := fun n => if ((n =? 1) || (n =? 2))%nat then 0.75%float else 0.25%float;
     calls := 0 |}.

(** The token ["good"] belongs to the user ["u1"]; no other token verifies. *)
Definition known_user (token : string) : option Handler.user :=
  if String.eqb token "good" then Some {| Handler.user_id := Some "u1"%string |} else None.

End Samples.

(* ===================================================================== *)
(** * Part III: lemmas                                                    *)
(* ===================================================================== *)

(** ** Rounding of binary64 operations *)
Module B64Facts.
Import Personalization B64.

(** [digits2_pos m] is the number of bits of [m]. *)
Lemma digits2_pos_bounds (m : positive) :
  2 ^ (Z.pos (digits2_pos m) - 1) <= Z.pos m < 2 ^ Z.pos (digits2_pos m).
Proof.
  induction m as [m IH | m IH |]; cbn [digits2_pos].
  - rewrite Pos2Z.inj_succ.
    replace (Z.succ (Z.pos (digits2_pos m)) - 1) with (Z.succ (Z.pos (digits2_pos m) - 1)) by lia.
    rewrite !Z.pow_succ_r by lia. lia.
  - rewrite Pos2Z.inj_succ.
    replace (Z.succ (Z.pos (digits2_pos m)) - 1) with (Z.succ (Z.pos (digits2_pos m) - 1)) by lia.
    rewrite !Z.pow_succ_r by lia. lia.
  - cbn. lia.
Qed.

(** One more right shift keeps the invariant. *)
Lemma shr_1_inv m n mrs :
  0 <= m -> 0 <= n -> shr_inv m n mrs -> shr_inv m (n + 1) (shr_1 mrs).
Proof.
  intros Hm Hn [Hq Hr].
  assert (Hp : 0 < 2 ^ n) by (apply Z.pow_pos_nonneg; lia).
  assert (Hdd : m / 2 ^ (n + 1) = m / 2 ^ n / 2).
  { rewrite Z.pow_add_r, Z.pow_1_r by lia. rewrite Z.div_div by lia. reflexivity. }
  assert (Hmm : m mod 2 ^ (n + 1) = m mod 2 ^ n + 2 ^ n * ((m / 2 ^ n) mod 2)).
  { rewrite Z.pow_add_r, Z.pow_1_r by lia. apply Z.rem_mul_r; lia. }
  assert (Hb1 : 0 <= m mod 2 ^ n) by (apply Z.mod_pos_bound; lia).
  assert (Hb2 : 0 <= (m / 2 ^ n) mod 2 < 2) by (apply Z.mod_pos_bound; lia).
  destruct mrs as [q r s]; cbn [shr_m shr_r shr_s] in *.
  unfold shr_inv. rewrite Hdd, Hmm, <- Hq.
  assert (Hq0 : 0 <= q) by (rewrite Hq; apply Z.div_pos; lia).
  assert (Hz : m mod 2 ^ n + 2 ^ n * (q mod 2) = 0 -> m mod 2 ^ n = 0 /\ q mod 2 = 0).
  { rewrite <- Hq in Hb2. nia. }
  destruct q as [| [q | q |] | q]; cbn [shr_1 shr_m shr_r shr_s]; try lia.
  - split; [reflexivity |]. intros H; apply Hz in H as [H _].
    destruct (Hr H) as [-> ->]. auto.
  - split; [rewrite Pos2Z.inj_xI; apply Z.div_unique with 1; lia |].
    intros H; apply Hz in H as [_ H]. rewrite Pos2Z.inj_xI in H.
    replace (2 * Z.pos q + 1) with (1 + Z.pos q * 2) in H by lia.
    rewrite Z.mod_add in H by lia. discriminate.
  - split; [rewrite Pos2Z.inj_xO; apply Z.div_unique with 0; lia |].
    intros H; apply Hz in H as [H _]. destruct (Hr H) as [-> ->]. auto.
  - split; [reflexivity |]. intros H; apply Hz in H as [_ H]. discriminate.
Qed.

(** An invariant indexed by the number of steps survives [iter_pos]. *)
Lemma iter_pos_inv {A} (P : Z -> A -> Prop) (f : A -> A) :
  (forall n y, 0 <= n -> P n y -> P (n + 1) (f y)) ->
  forall p n x, 0 <= n -> P n x -> P (n + Z.pos p) (SpecFloat.iter_pos f p x).
Proof.
  intros Hstep. induction p as [p IH | p IH |]; intros n x Hn Hx; cbn [SpecFloat.iter_pos].
  - replace (n + Z.pos p~1) with (n + 1 + Z.pos p + Z.pos p) by lia.
    apply IH; [lia |]. apply IH; [lia |]. apply Hstep; assumption.
  - replace (n + Z.pos p~0) with (n + Z.pos p + Z.pos p) by lia.
    apply IH; [lia |]. apply IH; assumption.
  - apply Hstep; assumption.
Qed.

Lemma fexp_fexp64 e : fexp prec emax e = fexp64 e.
Proof. reflexivity. Qed.

(** [shr_fexp] truncates the mantissa to the exponent of the format. *)
Lemma shr_fexp_spec (mx : positive) (ex : Z) :
  let e' := fexp64 (Z.pos (digits2_pos mx) + ex) in
  ex <= e' ->
  exists mrs, shr_fexp prec emax (Z.pos mx) ex loc_Exact = (mrs, e')
              /\ shr_inv (Z.pos mx) (e' - ex) mrs.
Proof.
  intros e' He. unfold shr_fexp. cbn [Zdigits2 shr_record_of_loc].
  rewrite fexp_fexp64. fold e'. unfold shr.
  destruct (e' - ex) as [| k | k] eqn:Hk; try lia.
  - eexists; split; [f_equal; lia |]. split; cbn; [rewrite Z.div_1_r; reflexivity | auto].
  - eexists; split; [f_equal; lia |].
    replace (Z.pos k) with (0 + Z.pos k) by lia.
    apply (iter_pos_inv (shr_inv (Z.pos mx))); [| lia |].
    + intros; apply shr_1_inv; auto; lia.
    + split; cbn; [rewrite Z.div_1_r; reflexivity | auto].
Qed.

Lemma wt_pos e : -1200 <= e -> 0 < wt e.
Proof. intros; apply Z.pow_pos_nonneg; lia. Qed.

Lemma wt_add e k : -1200 <= e -> 0 <= k -> wt (e + k) = wt e * 2 ^ k.
Proof.
  intros. unfold wt. replace (e + k + 1200) with (e + 1200 + k) by lia.
  apply Z.pow_add_r; lia.
Qed.

Lemma wt_le e1 e2 : -1200 <= e1 -> e1 <= e2 -> wt e1 <= wt e2.
Proof. intros. apply Z.pow_le_mono_r; lia. Qed.

Lemma wt_lt_inv e1 e2 : -1200 <= e1 -> -1200 <= e2 -> wt e1 < wt e2 -> e1 < e2.
Proof. intros ? ? H. apply Z.pow_lt_mono_r_iff in H; lia. Qed.

Lemma digits2_pos_le53 m : Z.pos m < 2 ^ 53 -> Z.pos (digits2_pos m) <= 53.
Proof.
  intros H. destruct (digits2_pos_bounds m) as [Hl _].
  destruct (Z_le_gt_dec (Z.pos (digits2_pos m)) 53) as [|Hgt]; [assumption | exfalso].
  assert (2 ^ 53 <= 2 ^ (Z.pos (digits2_pos m) - 1)) by (apply Z.pow_le_mono_r; lia).
  lia.
Qed.

Lemma shr_zero_iter p : shr_m (SpecFloat.iter_pos shr_1 p (Build_shr_record 0 false false)) = 0.
Proof.
  pose proof (iter_pos_inv (fun _ r => shr_m r = 0) shr_1) as H.
  apply (H (fun n y _ Hy => ltac:(destruct y as [[] ? ?]; cbn in *; congruence)) p 0); [lia | reflexivity].
Qed.

(** Rounding to nearest-even keeps the truncated mantissa or adds one, and
    adds one only when the truncation was inexact. *)
Lemma round_aux_spec (s : bool) (mx : positive) (ex : Z) :
  let e' := fexp64 (Z.pos (digits2_pos mx) + ex) in
  let m1 := Z.pos mx / 2 ^ (e' - ex) in
  ex <= e' ->
  exists m2 : Z,
    (m2 = m1 \/ (m2 = m1 + 1 /\ Z.pos mx mod 2 ^ (e' - ex) <> 0)) /\
    binary_round_aux prec emax s (Z.pos mx) ex loc_Exact = canon s m2 e'.
Proof.
  intros e' m1 He.
  destruct (shr_fexp_spec mx ex He) as (mrs & Hshr & Hq & Hr). fold e' in Hshr, Hq, Hr.
  assert (Hk : 0 <= e' - ex) by lia.
  assert (H2k : 0 < 2 ^ (e' - ex)) by (apply Z.pow_pos_nonneg; lia).
  assert (Hm1 : 0 <= m1 < 2 ^ 53).
  { split; [apply Z.div_pos; lia |].
    apply Z.div_lt_upper_bound; [lia |].
    destruct (digits2_pos_bounds mx) as [_ Hu].
    assert (2 ^ Z.pos (digits2_pos mx) <= 2 ^ (e' - ex + 53)).
    { apply Z.pow_le_mono_r; [lia |]. unfold e', fexp64. lia. }
    rewrite Z.pow_add_r in H by lia. lia. }
  exists (round_nearest_even (shr_m mrs) (loc_of_shr_record mrs)).
  assert (Hm2 : round_nearest_even (shr_m mrs) (loc_of_shr_record mrs) = m1 \/
                (round_nearest_even (shr_m mrs) (loc_of_shr_record mrs) = m1 + 1 /\
                 Z.pos mx mod 2 ^ (e' - ex) <> 0)).
  { fold m1 in Hq.
    destruct (Z.eq_dec (Z.pos mx mod 2 ^ (e' - ex)) 0) as [Hz | Hnz].
    - destruct (Hr Hz) as [Hr1 Hs1]. left.
      destruct mrs as [q r0 s0]; cbn in *; subst; reflexivity.
    - destruct mrs as [q [] []]; cbn in *; subst q; auto;
        destruct (Z.even m1); auto. }
  split; [exact Hm2 |].
  unfold binary_round_aux. rewrite Hshr.
  set (m2 := round_nearest_even (shr_m mrs) (loc_of_shr_record mrs)) in *.
  assert (Hm2r : 0 <= m2 <= 2 ^ 53) by lia.
  assert (He' : -1074 <= e') by (unfold e', fexp64; lia).
  unfold shr_fexp, shr. rewrite fexp_fexp64. cbn [shr_record_of_loc].
  destruct m2 as [| m | m] eqn:Em2; [| | lia].
  - cbn [Zdigits2 canon]. 
    destruct (fexp64 (0 + e') - e'); cbn [shr_m]; try reflexivity.
    rewrite shr_zero_iter. reflexivity.
  - cbn [Zdigits2 canon].
    destruct (Z.ltb_spec (Z.pos m) (2 ^ 53)) as [Hlt | Hge].
    + pose proof (digits2_pos_le53 m Hlt) as Hd.
      assert (Hsh : fexp64 (Z.pos (digits2_pos m) + e') - e' <= 0) by (unfold fexp64; lia).
      destruct (fexp64 (Z.pos (digits2_pos m) + e') - e') eqn:Ek; try lia; reflexivity.
    + assert (Hm : m = (2 ^ 53)%positive) by lia. subst m.
      replace (fexp64 (Z.pos (digits2_pos (2 ^ 53)) + e') - e') with 1
        by (change (Z.pos (digits2_pos (2 ^ 53))) with 54; unfold fexp64; lia).
      reflexivity.
Qed.

Lemma bounded_inv m e :
  bounded prec emax m e = true ->
  fexp64 (Z.pos (digits2_pos m) + e) = e /\ e <= 971.
Proof.
  unfold bounded, canonical_mantissa. rewrite fexp_fexp64.
  intros H. apply andb_prop in H as [H1 H2].
  apply Z.eqb_eq in H1. apply Z.leb_le in H2. change (emax - prec) with 971 in H2. auto.
Qed.

Lemma bounded_intro m e :
  fexp64 (Z.pos (digits2_pos m) + e) = e -> e <= 971 -> bounded prec emax m e = true.
Proof.
  intros H1 H2. unfold bounded, canonical_mantissa. rewrite fexp_fexp64.
  apply andb_true_intro; split; [apply Z.eqb_eq; assumption | apply Z.leb_le; exact H2].
Qed.

Lemma fval_lt_wt m e : -1200 <= e -> fval m e < wt (e + Z.pos (digits2_pos m)).
Proof.
  intros He. unfold fval. rewrite wt_add by lia.
  pose proof (wt_pos e He). destruct (digits2_pos_bounds m). nia.
Qed.

Lemma fval_ge_wt m e : -1200 <= e -> wt (e + (Z.pos (digits2_pos m) - 1)) <= fval m e.
Proof.
  intros He. unfold fval. rewrite wt_add by lia.
  pose proof (wt_pos e He). destruct (digits2_pos_bounds m). nia.
Qed.

Lemma fexp64_mono a b : a <= b -> fexp64 a <= fexp64 b.
Proof. unfold fexp64; lia. Qed.

(** Magnitudes are ordered like values. *)
Lemma mag_le m1 e1 m2 e2 :
  -1200 <= e1 -> -1200 <= e2 -> fval m1 e1 <= fval m2 e2 ->
  e1 + Z.pos (digits2_pos m1) <= e2 + Z.pos (digits2_pos m2).
Proof.
  intros H1 H2 H.
  pose proof (fval_ge_wt m1 e1 H1). pose proof (fval_lt_wt m2 e2 H2).
  assert (Hlt : wt (e1 + (Z.pos (digits2_pos m1) - 1)) < wt (e2 + Z.pos (digits2_pos m2))) by lia.
  apply wt_lt_inv in Hlt; lia.
Qed.

(** The rounded value stays between any two floats of the format that
    enclose the exact value. *)
Lemma round_aux_val (mx : positive) (ex : Z) :
  let e' := fexp64 (Z.pos (digits2_pos mx) + ex) in
  -1200 <= ex -> ex <= e' ->
  exists m2 : Z,
    binary_round_aux prec emax false (Z.pos mx) ex loc_Exact = canon false m2 e' /\
    0 <= m2 <= 2 ^ 53 /\
    (forall mh eh, bounded prec emax mh eh = true ->
                   fval mx ex <= fval mh eh -> m2 * wt e' <= fval mh eh) /\
    (forall ml el, bounded prec emax ml el = true ->
                   fval ml el <= fval mx ex -> fval ml el <= m2 * wt e') /\
    (e' = -1074 \/ 2 ^ 52 <= m2).
Proof.
  intros e' Hex He.
  destruct (round_aux_spec false mx ex He) as (m2 & Hm2 & HR). fold e' in Hm2, HR.
  set (k := e' - ex) in *. set (m1 := Z.pos mx / 2 ^ k) in *.
  assert (Hk : 0 <= k) by (unfold k; lia).
  assert (H2k : 0 < 2 ^ k) by (apply Z.pow_pos_nonneg; lia).
  assert (Hwe : wt e' = wt ex * 2 ^ k).
  { replace e' with (ex + k) by (unfold k; lia). apply wt_add; lia. }
  pose proof (wt_pos ex Hex) as Hwx.
  pose proof (Z.div_mod (Z.pos mx) (2 ^ k) ltac:(lia)) as Hdm. fold m1 in Hdm.
  pose proof (Z.mod_pos_bound (Z.pos mx) (2 ^ k) H2k) as Hmb.
  destruct (digits2_pos_bounds mx) as [Hdl Hdu].
  set (d := Z.pos (digits2_pos mx)) in *.
  assert (Hm1 : 0 <= m1 < 2 ^ 53).
  { split; [apply Z.div_pos; lia |].
    apply Z.div_lt_upper_bound; [lia |].
    assert (2 ^ d <= 2 ^ (k + 53)).
    { apply Z.pow_le_mono_r; [lia |]. unfold k, e', fexp64. lia. }
    rewrite Z.pow_add_r in H by lia. lia. }
  assert (Hnorm : e' = -1074 \/ 2 ^ 52 <= m1).
  { destruct (Z.eq_dec e' (-1074)) as [|Hne]; [left; assumption | right].
    assert (Hk' : k = d - 53) by (unfold k, e', fexp64 in *; lia).
    apply Z.div_le_lower_bound; [lia |].
    replace (2 ^ k * 2 ^ 52) with (2 ^ (d - 1)); [lia |].
    rewrite <- Z.pow_add_r by lia. f_equal; lia. }
  exists m2. split; [exact HR |]. split; [lia |]. split; [| split].
  - intros mh eh Hb Hle.
    destruct (bounded_inv _ _ Hb) as [Hc _].
    assert (Heh : -1074 <= eh) by (unfold fexp64 in Hc; lia).
    unfold fval in *.
    destruct Hm2 as [-> | [-> Hnz]].
    + rewrite Hwe. nia.
    + assert (Hmag : e' <= eh).
      { rewrite <- Hc. apply fexp64_mono.
        pose proof (mag_le mx ex mh eh Hex ltac:(lia) Hle). lia. }
      replace eh with (e' + (eh - e')) by lia.
      rewrite (wt_add e') by lia.
      assert (0 < wt e') by (apply wt_pos; lia).
      assert (0 < 2 ^ (eh - e')) by (apply Z.pow_pos_nonneg; lia).
      replace eh with (e' + (eh - e')) in Hle by lia.
      rewrite (wt_add e') in Hle by lia.
      assert (m1 < Z.pos mh * 2 ^ (eh - e')); [| nia].
      apply Z.nle_gt. intros Hc'.
      assert (Z.pos mh * 2 ^ (eh - e') * wt e' <= m1 * wt e') by nia.
      rewrite Hwe in H1 at 2. nia.
  - intros ml el Hb Hle.
    destruct (bounded_inv _ _ Hb) as [Hc _].
    assert (Hel : -1074 <= el) by (unfold fexp64 in Hc; lia).
    assert (Hml : fval ml el <= m1 * wt e'); [| destruct Hm2 as [-> | [-> _]];
      pose proof (wt_pos e' ltac:(lia)); nia].
    assert (Hmag : el <= e').
    { rewrite <- Hc. apply fexp64_mono.
      pose proof (mag_le ml el mx ex ltac:(lia) Hex Hle). fold d in H. lia. }
    destruct (Z.eq_dec el e') as [Heq | Hne].
    + unfold fval in *. rewrite Heq in *. rewrite Hwe in *.
      assert (Z.pos ml <= m1); [| nia].
      apply Z.div_le_lower_bound; [lia |]. nia.
    + destruct Hnorm as [Hs | Hn]; [lia |].
      assert (He'd : e' = d + ex - 53) by (unfold e', fexp64 in *; lia).
      assert (Hdl' : el + Z.pos (digits2_pos ml) <= ex + d - 1).
      { destruct (Z_le_gt_dec (el + Z.pos (digits2_pos ml)) (ex + d - 1)); [assumption |].
        exfalso. apply Hne. rewrite <- Hc. unfold e'.
        pose proof (mag_le ml el mx ex ltac:(lia) Hex Hle). fold d in H.
        f_equal. lia. }
      pose proof (fval_lt_wt ml el ltac:(lia)).
      pose proof (wt_le (el + Z.pos (digits2_pos ml)) (ex + d - 1) ltac:(lia) Hdl').
      assert (wt (ex + d - 1) <= m1 * wt e'); [| lia].
      replace (ex + d - 1) with (e' + 52) by lia.
      rewrite wt_add by lia. pose proof (wt_pos e' ltac:(lia)). nia.
  - destruct Hnorm as [|Hn]; [left; assumption | right].
    destruct Hm2 as [-> | [-> _]]; lia.
Qed.

Lemma bounded_digits m e : bounded prec emax m e = true ->
  -1074 <= e <= 971 /\ Z.pos (digits2_pos m) <= 53 /\ (e = -1074 \/ Z.pos (digits2_pos m) = 53).
Proof.
  intros H. destruct (bounded_inv _ _ H) as [Hc He]. unfold fexp64 in Hc. lia.
Qed.

(** A non-zero rounded mantissa below a float of the format gives a float
    of the format, of the same value. *)
Lemma canon_finite (m2 e' : Z) (mh : positive) (eh : Z) :
  0 < m2 <= 2 ^ 53 -> -1074 <= e' -> (e' = -1074 \/ 2 ^ 52 <= m2) ->
  bounded prec emax mh eh = true -> m2 * wt e' <= fval mh eh ->
  exists m e, canon false m2 e' = S754_finite false m e /\
              bounded prec emax m e = true /\ fval m e = m2 * wt e'.
Proof.
  intros Hm2 He' Hn Hb Hle.
  destruct (bounded_digits _ _ Hb) as (Heh & Hdh & _).
  pose proof (fval_lt_wt mh eh ltac:(lia)) as Hhi.
  pose proof (wt_le (eh + Z.pos (digits2_pos mh)) 1024 ltac:(lia) ltac:(lia)) as Hhi'.
  pose proof (wt_pos e' ltac:(lia)) as Hwp.
  destruct m2 as [| m | m]; try lia. unfold canon.
  destruct (Z.ltb_spec (Z.pos m) (2 ^ 53)) as [Hlt | Hge].
  - assert (Hd53 := digits2_pos_le53 m Hlt).
    assert (He971 : e' <= 971).
    { destruct Hn as [-> | Hn]; [lia |].
      assert (Hw : wt (e' + 52) < wt 1024) by (rewrite wt_add by lia; nia).
      apply wt_lt_inv in Hw; lia. }
    destruct (Z.leb_spec e' 971); [| lia].
    exists m, e'. split; [reflexivity |]. split; [| reflexivity].
    apply bounded_intro; [| assumption].
    destruct Hn as [-> | Hn]; [unfold fexp64; lia |].
    destruct (digits2_pos_bounds m) as [_ Hu].
    assert (Hd : 52 < Z.pos (digits2_pos m)).
    { apply (Z.pow_lt_mono_r_iff 2); lia. }
    unfold fexp64; lia.
  - assert (Hm : m = (2 ^ 53)%positive) by lia. subst m.
    assert (He970 : e' + 1 <= 971).
    { assert (Hw : wt (e' + 53) < wt 1024) by (rewrite wt_add by lia; nia).
      apply wt_lt_inv in Hw; lia. }
    destruct (Z.leb_spec (e' + 1) 971); [| lia].
    exists (2 ^ 52)%positive, (e' + 1). split; [reflexivity |]. split.
    + apply bounded_intro; [| assumption].
      change (Z.pos (digits2_pos (2 ^ 52))) with 53. unfold fexp64; lia.
    + unfold fval. rewrite wt_add by lia. change (2 ^ 1) with 2.
      change (Z.pos (2 ^ 53)) with (2 * Z.pos (2 ^ 52)). ring.
Qed.

(** Canonical representations are ordered by exponent first. *)
Lemma fval_exp_lt m1 e1 m2 e2 :
  bounded prec emax m1 e1 = true -> bounded prec emax m2 e2 = true ->
  e1 < e2 -> fval m1 e1 < fval m2 e2.
Proof.
  intros H1 H2 Hlt.
  destruct (bounded_digits _ _ H1) as (He1 & Hd1 & _).
  destruct (bounded_digits _ _ H2) as (He2 & Hd2 & Hn2).
  assert (Hd : Z.pos (digits2_pos m2) = 53) by lia.
  pose proof (fval_lt_wt m1 e1 ltac:(lia)).
  pose proof (fval_ge_wt m2 e2 ltac:(lia)).
  pose proof (wt_le (e1 + Z.pos (digits2_pos m1)) (e2 + (Z.pos (digits2_pos m2) - 1))
                ltac:(lia) ltac:(lia)).
  lia.
Qed.

(** On positive floats of the format, [SFcompare] compares the values. *)
Lemma SFcompare_fval m1 e1 m2 e2 :
  bounded prec emax m1 e1 = true -> bounded prec emax m2 e2 = true ->
  SFcompare (S754_finite false m1 e1) (S754_finite false m2 e2)
  = Some (fval m1 e1 ?= fval m2 e2).
Proof.
  intros H1 H2. cbn [SFcompare]. f_equal.
  destruct (Z.compare_spec e1 e2) as [-> | Hlt | Hgt].
  - destruct (bounded_digits _ _ H2) as (He2 & _).
    unfold fval. rewrite <- Zmult_compare_compat_r by (apply Z.lt_gt, wt_pos; lia).
    reflexivity.
  - symmetry. apply Z.compare_lt_iff. apply fval_exp_lt; assumption.
  - symmetry. apply Z.compare_gt_iff. apply fval_exp_lt; assumption.
Qed.

Lemma fval_inj m1 e1 m2 e2 :
  bounded prec emax m1 e1 = true -> bounded prec emax m2 e2 = true ->
  fval m1 e1 = fval m2 e2 -> m1 = m2 /\ e1 = e2.
Proof.
  intros H1 H2 Heq.
  destruct (Z.lt_total e1 e2) as [Hlt | [-> | Hgt]].
  - pose proof (fval_exp_lt _ _ _ _ H1 H2 Hlt). lia.
  - destruct (bounded_digits _ _ H2) as (He2 & _).
    pose proof (wt_pos e2 ltac:(lia)). unfold fval in Heq.
    split; [| reflexivity]. apply Z.mul_reg_r in Heq; [congruence | lia].
  - pose proof (fval_exp_lt _ _ _ _ H2 H1 Hgt). lia.
Qed.

(** [shl_align] keeps the value and lowers the exponent to the smaller one. *)
Lemma iter_xO_spec (m d : positive) :
  Z.pos (Pos.iter xO m d) = Z.pos m * 2 ^ Z.pos d /\
  Z.pos (digits2_pos (Pos.iter xO m d)) = Z.pos (digits2_pos m) + Z.pos d.
Proof.
  induction d as [| d IH] using Pos.peano_ind.
  - cbn [Pos.iter digits2_pos]. rewrite Pos2Z.inj_xO, Pos2Z.inj_succ. lia.
  - rewrite Pos.iter_succ. cbn [digits2_pos].
    rewrite Pos2Z.inj_xO, !Pos2Z.inj_succ, Z.pow_succ_r by lia.
    destruct IH as [-> ->]. lia.
Qed.

Lemma shl_align_spec (mx : positive) (ex ex' : Z) :
  -1200 <= ex -> -1200 <= ex' ->
  let '(m, e) := shl_align mx ex ex' in
  e = Z.min ex ex' /\ fval m e = fval mx ex /\
  Z.pos (digits2_pos m) + e = Z.pos (digits2_pos mx) + ex /\
  Z.pos m = Z.pos mx * 2 ^ (ex - e).
Proof.
  intros Hex Hex'. unfold shl_align.
  destruct (ex' - ex) as [| d | d] eqn:Hd.
  - repeat split; try lia. rewrite Z.sub_diag. lia.
  - repeat split; try lia. rewrite Z.sub_diag. lia.
  - destruct (iter_xO_spec mx d) as [Hv Hdg].
    assert (Hexd : ex = ex' + Z.pos d) by lia.
    repeat split; try lia.
    + unfold fval. rewrite Hv, Hexd, wt_add by lia. ring.
    + rewrite Hv. f_equal. f_equal. lia.
Qed.

(** The same enclosure for [binary_round], which aligns the mantissa first. *)
Lemma binary_round_val (mx : positive) (ex : Z) :
  let e' := fexp64 (Z.pos (digits2_pos mx) + ex) in
  -1200 <= ex ->
  exists m2 : Z,
    binary_round prec emax false mx ex = canon false m2 e' /\
    0 <= m2 <= 2 ^ 53 /\
    (forall mh eh, bounded prec emax mh eh = true ->
                   fval mx ex <= fval mh eh -> m2 * wt e' <= fval mh eh) /\
    (forall ml el, bounded prec emax ml el = true ->
                   fval ml el <= fval mx ex -> fval ml el <= m2 * wt e') /\
    (e' = -1074 \/ 2 ^ 52 <= m2).
Proof.
  intros e' Hex. unfold binary_round. rewrite fexp_fexp64. fold e'.
  assert (He' : -1074 <= e') by (unfold e', fexp64; lia).
  pose proof (shl_align_spec mx ex e' Hex ltac:(lia)) as Hs.
  destruct (shl_align mx ex e') as [mz ez]. destruct Hs as (Hez & Hv & Hd & _).
  pose proof (round_aux_val mz ez) as H. cbv zeta in H.
  rewrite Hd in H. fold e' in H. rewrite Hv in H. apply H; lia.
Qed.

Lemma binary_round_neg (mx : positive) (ex : Z) :
  -1200 <= ex ->
  exists m2 e', binary_round prec emax true mx ex = canon true m2 e'.
Proof.
  intros Hex. unfold binary_round. rewrite fexp_fexp64.
  set (e' := fexp64 (Z.pos (digits2_pos mx) + ex)).
  assert (He' : -1074 <= e') by (unfold e', fexp64; lia).
  pose proof (shl_align_spec mx ex e' Hex ltac:(lia)) as Hs.
  destruct (shl_align mx ex e') as [mz ez]. destruct Hs as (Hez & Hv & Hd & _).
  destruct (round_aux_spec true mz ez) as (m2 & _ & HR).
  - rewrite Hd. fold e'. lia.
  - eauto.
Qed.

(** [r * 0.8] for a positive [r <= 1]: zero, or a positive float at most 0.8. *)
Lemma mul_08_spec (m : positive) (e : Z) :
  bounded prec emax m e = true -> fval m e <= wt 0 ->
  let p := SF64mul (S754_finite false m e) sf_08 in
  p = S754_zero false \/
  exists m' e', p = S754_finite false m' e' /\ bounded prec emax m' e' = true /\
                fval m' e' <= fval M08 (-53).
Proof.
  intros Hb Hle p. subst p. unfold SF64mul, sf_08. cbn [SFmul xorb].
  destruct (bounded_digits _ _ Hb) as (He & Hd & _).
  assert (H08 : bounded prec emax M08 (-53) = true) by reflexivity.
  assert (Hdig : 53 <= Z.pos (digits2_pos (m * M08))).
  { destruct (digits2_pos_bounds (m * M08)) as [_ Hu].
    assert (2 ^ 52 < 2 ^ Z.pos (digits2_pos (m * M08))).
    { rewrite Pos2Z.inj_mul in Hu. unfold M08 in *. nia. }
    apply Z.pow_lt_mono_r_iff in H; lia. }
  destruct (round_aux_val (m * M08) (e + -53)) as (m2 & HR & Hm2 & Hup & _ & Hn).
  { lia. } { unfold fexp64. lia. }
  set (e' := fexp64 (Z.pos (digits2_pos (m * M08)) + (e + -53))) in *.
  assert (He' : -1074 <= e') by (unfold e', fexp64; lia).
  assert (Hx : fval (m * M08) (e + -53) <= fval M08 (-53)).
  { unfold fval in *. rewrite Pos2Z.inj_mul.
    replace e with (e + -53 + 53) in Hle by lia.
    rewrite wt_add in Hle by lia.
    change (wt 0) with (wt (-53) * 2 ^ 53) in Hle.
    pose proof (wt_pos (e + -53) ltac:(lia)). pose proof (wt_pos (-53) ltac:(lia)).
    assert (Z.pos m * wt (e + -53) <= wt (-53)) by nia. nia. }
  specialize (Hup _ _ H08 Hx). rewrite HR.
  destruct (Z.eq_dec m2 0) as [-> | Hnz]; [left; reflexivity | right].
  destruct (canon_finite m2 e' M08 (-53)) as (m' & e'' & Hc & Hb' & Hv); auto; [lia |].
  exists m', e''. rewrite Hv. auto.
Qed.

(** The sum of two positive floats is the rounding of the exact sum. *)
Lemma SFadd_pos (ma : positive) (ea : Z) (mb : positive) (eb : Z) :
  -1200 <= ea -> -1200 <= eb ->
  exists ms, SF64add (S754_finite false ma ea) (S754_finite false mb eb)
             = binary_round prec emax false ms (Z.min ea eb)
             /\ fval ms (Z.min ea eb) = fval ma ea + fval mb eb.
Proof.
  intros Ha Hb. unfold SF64add. cbn [SFadd cond_Zopp].
  set (ez := Z.min ea eb).
  pose proof (shl_align_spec ma ea ez Ha ltac:(lia)) as H1.
  pose proof (shl_align_spec mb eb ez Hb ltac:(lia)) as H2.
  destruct (shl_align ma ea ez) as [ma' ea'], (shl_align mb eb ez) as [mb' eb'].
  cbn [fst]. destruct H1 as (E1 & V1 & _), H2 as (E2 & V2 & _).
  exists (ma' + mb')%positive. split; [reflexivity |].
  assert (ea' = ez) by lia. assert (eb' = ez) by lia. subst ea' eb'.
  rewrite <- V1, <- V2. unfold fval. rewrite Pos2Z.inj_add, H, H0. ring.
Qed.

(** [p + 0.2] for a positive [p <= 0.8]: a float between 0.2 and 1. *)
Lemma add_02_spec (m : positive) (e : Z) :
  bounded prec emax m e = true -> fval m e <= fval M08 (-53) ->
  exists m' e', SF64add (S754_finite false m e) sf_02 = S754_finite false m' e' /\
                bounded prec emax m' e' = true /\
                fval M08 (-55) <= fval m' e' <= fval (2 ^ 52) (-52).
Proof.
  intros Hb Hle.
  assert (H08 : bounded prec emax M08 (-53) = true) by reflexivity.
  assert (H02 : bounded prec emax M08 (-55) = true) by reflexivity.
  assert (H1 : bounded prec emax (2 ^ 52) (-52) = true) by reflexivity.
  destruct (Z.eq_dec (fval m e) (fval M08 (-53))) as [Heq | Hne].
  - apply fval_inj in Heq as [-> ->]; auto.
    exists (2 ^ 52)%positive, (-52). split; [vm_compute; reflexivity |].
    split; [assumption |]. split; [vm_compute; discriminate | lia].
  - assert (Hpred : fval m e <= fval (M08 - 1) (-53)).
    { assert (Hp : bounded prec emax (M08 - 1) (-53) = true) by reflexivity.
      destruct (Z.lt_total e (-53)) as [Hlt | [-> | Hgt]].
      + pose proof (fval_exp_lt _ _ _ _ Hb Hp Hlt). lia.
      + unfold fval in *. pose proof (wt_pos (-53) ltac:(lia)).
        assert (Z.pos m < Z.pos M08) by nia.
        assert (Z.pos m <= Z.pos (M08 - 1)) by (unfold M08 in *; lia). nia.
      + pose proof (fval_exp_lt _ _ _ _ H08 Hb Hgt). lia. }
    destruct (bounded_digits _ _ Hb) as (He & _).
    destruct (SFadd_pos m e M08 (-55)) as (ms & Hadd & Hv); [lia | lia |].
    unfold sf_02. rewrite Hadd.
    destruct (binary_round_val ms (Z.min e (-55))) as (m2 & HR & Hm2 & Hup & Hlo & Hn); [lia |].
    set (e' := fexp64 (Z.pos (digits2_pos ms) + Z.min e (-55))) in *.
    assert (He' : -1074 <= e') by (unfold e', fexp64; lia).
    assert (Hupper : m2 * wt e' <= fval (2 ^ 52) (-52)).
    { apply Hup; [assumption |]. rewrite Hv.
      assert (fval (M08 - 1) (-53) + fval M08 (-55) <= fval (2 ^ 52) (-52))
        by (vm_compute; discriminate). lia. }
    assert (Hlower : fval M08 (-55) <= m2 * wt e').
    { apply Hlo; [assumption |]. rewrite Hv. unfold fval at 2.
      pose proof (wt_pos e ltac:(lia)). lia. }
    assert (Hpos : 0 < m2).
    { assert (0 < fval M08 (-55)) by (vm_compute; reflexivity).
      pose proof (wt_pos e' ltac:(lia)). nia. }
    destruct (canon_finite m2 e' (2 ^ 52) (-52)) as (m' & e'' & Hc & Hb' & Hv'); auto; [lia |].
    exists m', e''. rewrite HR, Hv'. auto.
Qed.

Lemma canon_true_not_pos m2 e' : SFltb (S754_zero false) (canon true m2 e') = false.
Proof.
  unfold canon. destruct m2; [reflexivity | | reflexivity].
  destruct (_ <? _); destruct (_ <=? _); reflexivity.
Qed.

(** The difference of two positive floats is positive exactly when the
    minuend is the larger: no difference underflows to zero. *)
Lemma sub_sign (ma : positive) (ea : Z) (mb : positive) (eb : Z) :
  bounded prec emax ma ea = true -> bounded prec emax mb eb = true ->
  SFltb (S754_zero false) (SF64sub (S754_finite false mb eb) (S754_finite false ma ea))
  = (fval ma ea <? fval mb eb).
Proof.
  intros Ha Hb.
  destruct (bounded_digits _ _ Ha) as (Hea & _), (bounded_digits _ _ Hb) as (Heb & _).
  unfold SF64sub. cbn [SFsub cond_Zopp].
  set (ez := Z.min eb ea).
  pose proof (shl_align_spec ma ea ez ltac:(lia) ltac:(lia)) as H1.
  pose proof (shl_align_spec mb eb ez ltac:(lia) ltac:(lia)) as H2.
  destruct (shl_align ma ea ez) as [ma' ea'], (shl_align mb eb ez) as [mb' eb'].
  cbn [fst]. destruct H1 as (E1 & V1 & _), H2 as (E2 & V2 & _).
  assert (Ea : ea' = ez) by lia. assert (Eb : eb' = ez) by lia.
  clear E1 E2. subst ea' eb'. rewrite <- V1, <- V2.
  pose proof (wt_pos ez ltac:(lia)) as Hw.
  unfold binary_normalize.
  destruct (Z.pos mb' - Z.pos ma') as [| d | d] eqn:Hd.
  - symmetry. apply Z.ltb_ge. unfold fval. nia.
  - assert (Hlt : fval ma' ez < fval mb' ez) by (unfold fval; nia).
    apply Z.ltb_lt in Hlt as Hlt'. rewrite Hlt'.
    destruct (binary_round_val d ez) as (m2 & HR & Hm2 & Hup & Hlo & Hn); [lia |].
    set (e' := fexp64 (Z.pos (digits2_pos d) + ez)) in *.
    assert (He' : -1074 <= e') by (unfold e', fexp64; lia).
    assert (Hmin : bounded prec emax 1 (-1074) = true) by reflexivity.
    assert (Hdv : fval d ez = fval mb' ez - fval ma' ez) by (unfold fval; nia).
    assert (Hlower : fval 1 (-1074) <= m2 * wt e').
    { apply Hlo; [assumption |]. unfold fval.
      pose proof (wt_le (-1074) ez ltac:(lia) ltac:(lia)). nia. }
    assert (Hupper : m2 * wt e' <= fval mb eb).
    { apply Hup; [assumption |]. rewrite Hdv, V2. unfold fval. nia. }
    assert (Hpos : 0 < m2).
    { assert (0 < fval 1 (-1074)) by (vm_compute; reflexivity).
      pose proof (wt_pos e' ltac:(lia)). nia. }
    destruct (canon_finite m2 e' mb eb) as (m' & e'' & Hc & _); auto; [lia |].
    rewrite HR, Hc. reflexivity.
  - assert (Hge : fval mb' ez <= fval ma' ez) by (unfold fval; nia).
    apply Z.ltb_ge in Hge. rewrite Hge.
    destruct (binary_round_neg d ez) as (m2 & e' & ->); [lia |].
    apply canon_true_not_pos.
Qed.

Local Open Scope float_scope.

(** A draw: a zero, or a positive float below 1. *)
Lemma draw_cases (r : float) :
  (0 <=? r) = true -> (r <? 1) = true ->
  (exists s, Prim2SF r = S754_zero s) \/
  (exists v, pos_finite r v /\ (v < wt 0)%Z).
Proof.
  rewrite leb_spec, ltb_spec. intros H0 H1.
  pose proof (Prim2SF_valid r) as Hv.
  change (Prim2SF 0) with (S754_zero false) in H0.
  change (Prim2SF 1) with sf_1 in H1.
  destruct (Prim2SF r) as [s | s | | s m e] eqn:E.
  - left; eauto.
  - destruct s; discriminate.
  - discriminate.
  - destruct s; [discriminate |]. right. exists (fval m e).
    split; [exists m, e; auto |].
    unfold SFltb, sf_1 in H1. cbn [valid_binary] in Hv.
    rewrite SFcompare_fval in H1 by (auto; reflexivity).
    destruct (Z.compare_spec (fval m e) (fval (2 ^ 52) (-52))); try discriminate.
    assumption.
Qed.

(** The score of a draw is a positive finite float between 0.2 and 1. *)
Lemma score_of_draw_spec (r : float) :
  (0 <=? r) = true -> (r <? 1) = true ->
  exists v, pos_finite (score_of_draw r) v /\ (fval M08 (-55) <= v <= wt 0)%Z.
Proof.
  intros H0 H1. unfold score_of_draw, pos_finite.
  rewrite add_spec, mul_spec.
  change (Prim2SF 0.8) with sf_08. change (Prim2SF 0.2) with sf_02.
  destruct (draw_cases r H0 H1) as [[s ->] | (v & (m & e & -> & Hb & ->) & Hlt)].
  - exists (fval M08 (-55)). split; [| split; [lia | vm_compute; discriminate]].
    exists M08, (-55)%Z. destruct s; repeat split; reflexivity.
  - destruct (mul_08_spec m e Hb ltac:(lia)) as [-> | (m' & e' & -> & Hb' & Hle)].
    + exists (fval M08 (-55)). split; [| split; [lia | vm_compute; discriminate]].
      exists M08, (-55)%Z. repeat split; reflexivity.
    + destruct (add_02_spec m' e' Hb' Hle) as (m'' & e'' & -> & Hb'' & Hr).
      exists (fval m'' e''). split; [eauto |]. exact Hr.
Qed.

Lemma pos_finite_leb x y vx vy :
  pos_finite x vx -> pos_finite y vy -> (x <=? y) = (vx <=? vy)%Z.
Proof.
  intros (mx & ex & Ex & Bx & ->) (my & ey & Ey & By & ->).
  rewrite leb_spec, Ex, Ey. unfold SFleb. rewrite SFcompare_fval by assumption.
  unfold Z.leb. destruct (fval mx ex ?= fval my ey)%Z; reflexivity.
Qed.

Lemma pos_finite_ltb x y vx vy :
  pos_finite x vx -> pos_finite y vy -> (x <? y) = (vx <? vy)%Z.
Proof.
  intros (mx & ex & Ex & Bx & ->) (my & ey & Ey & By & ->).
  rewrite ltb_spec, Ex, Ey. unfold SFltb. rewrite SFcompare_fval by assumption.
  unfold Z.ltb. destruct (fval mx ex ?= fval my ey)%Z; reflexivity.
Qed.

Lemma pos_finite_sub_sign x y vx vy :
  pos_finite x vx -> pos_finite y vy -> (0 <? y - x) = (vx <? vy)%Z.
Proof.
  intros (mx & ex & Ex & Bx & ->) (my & ey & Ey & By & ->).
  rewrite ltb_spec, sub_spec, Ex, Ey.
  change (Prim2SF 0) with (S754_zero false). apply sub_sign; assumption.
Qed.

(** The same, by the comparisons of the language. *)
Theorem score_of_draw_range (r : float) :
  (0 <=? r) = true -> (r <? 1) = true ->
  (0.2 <=? score_of_draw r) = true /\ (score_of_draw r <=? 1) = true /\ (0.05 <? score_of_draw r) = true.
Proof.
  intros H0 H1. destruct (score_of_draw_spec r H0 H1) as (v & Hv & Hlo & Hhi).
  assert (P02 : pos_finite 0.2 (fval M08 (-55))) by (exists M08, (-55)%Z; repeat split; reflexivity).
  assert (P1 : pos_finite 1 (wt 0)) by (exists (2 ^ 52)%positive, (-52)%Z; repeat split; reflexivity).
  assert (P005 : pos_finite 0.05 (fval M08 (-57))) by (exists M08, (-57)%Z; repeat split; reflexivity).
  rewrite (pos_finite_leb _ _ _ _ P02 Hv), (pos_finite_leb _ _ _ _ Hv P1),
    (pos_finite_ltb _ _ _ _ P005 Hv).
  assert (fval M08 (-57) < fval M08 (-55))%Z by (vm_compute; reflexivity).
  repeat split; [apply Z.leb_le | apply Z.leb_le | apply Z.ltb_lt]; lia.
Qed.

(** Comparison of specification floats. *)
Lemma SFcompare_antisym (x y : spec_float) :
  SFcompare y x = option_map CompOpp (SFcompare x y).
Proof.
  destruct x as [sx | sx | | sx mx ex], y as [sy | sy | | sy my ey]; cbn;
    try reflexivity; try (destruct sx; reflexivity); try (destruct sy; reflexivity);
    try (destruct sx, sy; reflexivity).
  pose proof (Pos.compare_cont_antisym mx my Eq) as Hp. cbn [CompOpp] in Hp.
  destruct sx, sy; cbn; try reflexivity;
    rewrite (Z.compare_antisym ey ex); destruct (ey ?= ex)%Z; cbn; try reflexivity;
    rewrite <- Hp; destruct (Pos.compare_cont Eq mx my); reflexivity.
Qed.



End B64Facts.

(** ** The insertion sort *)
Module SortFacts.
Import Js SortSpec.

Section Sorting.
Context {A : Type} (after : A -> A -> bool) (key : A -> Z).

Lemma insert_perm (x : A) (l : list A) : insert after x l ≡ₚ x :: l.
Proof.
  induction l as [| y l IH]; cbn [insert]; [reflexivity |].
  destruct (after x y); [| reflexivity].
  rewrite IH. apply Permutation_swap.
Qed.

Lemma sort_perm (l : list A) : sort after l ≡ₚ l.
Proof.
  induction l as [| x l IH]; cbn [sort]; [reflexivity |].
  rewrite insert_perm, IH. reflexivity.
Qed.

Lemma insert_sorted (x : A) (l : list A) :
  (forall y, y ∈ l -> after x y = (key x <? key y)) ->
  StronglySorted (descending key) l ->
  StronglySorted (descending key) (insert after x l).
Proof.
  induction l as [| y l IH]; intros Hk Hs; cbn [insert].
  - repeat constructor.
  - apply StronglySorted_cons in Hs as [Hy Hs].
    rewrite (Hk y) by (left; reflexivity).
    destruct (Z.ltb_spec (key x) (key y)) as [Hlt | Hge].
    + apply StronglySorted_cons. split.
      * rewrite insert_perm. constructor; [unfold descending; lia | exact Hy].
      * apply IH; [| exact Hs]. intros z Hz. apply Hk. right; exact Hz.
    + apply StronglySorted_cons. split.
      * constructor; [unfold descending; lia |].
        eapply Forall_impl; [exact Hy |]. unfold descending. intros; cbn in *; lia.
      * apply StronglySorted_cons. split; assumption.
Qed.

Lemma sort_sorted (l : list A) :
  keyed_by after key l -> StronglySorted (descending key) (sort after l).
Proof.
  induction l as [| x l IH]; intros Hk; cbn [sort]; [constructor |].
  apply insert_sorted.
  - intros y Hy. rewrite sort_perm in Hy. apply Hk; [left; reflexivity | right; exact Hy].
  - apply IH. intros a b Ha Hb. apply Hk; right; assumption.
Qed.

Lemma insert_filter (k : Z) (x : A) (l : list A) :
  (forall y, y ∈ l -> after x y = (key x <? key y)) ->
  List.filter (fun a => key a =? k) (insert after x l)
  = List.filter (fun a => key a =? k) (x :: l).
Proof.
  induction l as [| y l IH]; intros Hk; cbn [insert]; [reflexivity |].
  rewrite (Hk y) by (left; reflexivity).
  destruct (Z.ltb_spec (key x) (key y)) as [Hlt | Hge]; [| reflexivity].
  cbn [List.filter]. rewrite IH by (intros z Hz; apply Hk; right; exact Hz).
  cbn [List.filter].
  destruct (Z.eqb_spec (key x) k), (Z.eqb_spec (key y) k); try reflexivity. lia.
Qed.

Lemma sort_stable (k : Z) (l : list A) :
  keyed_by after key l ->
  List.filter (fun a => key a =? k) (sort after l) = List.filter (fun a => key a =? k) l.
Proof.
  induction l as [| x l IH]; intros Hk; cbn [sort]; [reflexivity |].
  rewrite insert_filter.
  - cbn [List.filter]. rewrite IH; [reflexivity |].
    intros a b Ha Hb. apply Hk; right; assumption.
  - intros y Hy. rewrite sort_perm in Hy. apply Hk; [left; reflexivity | right; exact Hy].
Qed.

Lemma sorted_lookup (R : A -> A -> Prop) (l : list A) (i j : nat) (a b : A) :
  StronglySorted R l -> l !! i = Some a -> l !! j = Some b -> (i < j)%nat -> R a b.
Proof.
  intros Hs. revert i j. induction Hs as [| x l Hs IH Hx]; intros i j Hi Hj Hlt.
  - rewrite lookup_nil in Hi. discriminate.
  - destruct j as [| j]; [lia |]. cbn in Hj.
    destruct i as [| i]; cbn in Hi.
    + injection Hi as <-. rewrite Forall_forall in Hx. apply Hx.
      eapply list_elem_of_lookup_2; exact Hj.
    + apply (IH i j); [assumption | assumption | lia].
Qed.

End Sorting.

(** Sorting commutes with a map that the comparator does not see. *)
Lemma insert_map {A B : Type} (f : A -> B) (afterA : A -> A -> bool)
    (afterB : B -> B -> bool) (x : A) (l : list A) :
  (forall a b, afterB (f a) (f b) = afterA a b) ->
  insert afterB (f x) (map f l) = map f (insert afterA x l).
Proof.
  intros H. induction l as [| y l IH]; cbn [insert map]; [reflexivity |].
  rewrite H. destruct (afterA x y); cbn [map]; [rewrite IH |]; reflexivity.
Qed.

Lemma sort_map {A B : Type} (f : A -> B) (afterA : A -> A -> bool)
    (afterB : B -> B -> bool) (l : list A) :
  (forall a b, afterB (f a) (f b) = afterA a b) ->
  sort afterB (map f l) = map f (sort afterA l).
Proof.
  intros H. induction l as [| x l IH]; cbn [sort map]; [reflexivity |].
  rewrite IH. apply insert_map. exact H.
Qed.

End SortFacts.


(* ===================================================================== *)
(** * Part IV: properties of the program                                   *)
(* ===================================================================== *)

Import Js Errors Database Personalization Route.

(** ** The built-ins on sample inputs *)

Example parseInt_samples :
  parseInt "42" = Num 42 /\ parseInt "  -7px" = Num (-7) /\ parseInt "0x1f" = Num 31 /\
  parseInt "1e3" = Num 1 /\ parseInt "abc" = NaN /\ parseInt "" = NaN /\
  parseInt "+" = NaN /\ parseInt "0x" = NaN.
Proof. repeat split; reflexivity. Qed.

Example validatePagination_samples :
  validatePagination [] = {| page := Num 1; limit := Num 20 |} /\
  validatePagination [("page", "0"); ("limit", "500")]%string
  = {| page := Num 1; limit := Num 100 |} /\
  validatePagination [("page", "3"); ("limit", "0")]%string
  = {| page := Num 3; limit := Num 1 |} /\
  validatePagination [("page", ""); ("limit", "-4")]%string
  = {| page := Num 1; limit := Num 1 |}.
Proof. repeat split; reflexivity. Qed.

Example slice_samples :
  slice [1; 2; 3; 4; 5]%nat (Num 1) (Num 3) = [2; 3]%nat /\
  slice [1; 2; 3; 4; 5]%nat (Num 4) (Num 9) = [5]%nat /\
  slice [1; 2; 3; 4; 5]%nat (Num (-2)) (Num 5) = [4; 5]%nat /\
  slice [1; 2; 3; 4; 5]%nat NaN NaN = [].
Proof. repeat split; reflexivity. Qed.

Example sort_samples :
  sort (fun a b : Z => 0 <? b - a) [3; 1; 2; 3; 0] = [3; 3; 2; 1; 0].
Proof. reflexivity. Qed.

Example mapSentimentToScore_samples :
  mapSentimentToScore (Some "positive"%string) = 0.7%float /\
  mapSentimentToScore (Some "NEGATIVE"%string) = (-0.3)%float /\
  mapSentimentToScore (Some "neutral"%string) = 0%float /\
  mapSentimentToScore (Some "mixed"%string) = 0%float /\
  mapSentimentToScore None = 0%float.
Proof. repeat split; reflexivity. Qed.

Example score_of_draw_samples :
  score_of_draw 0 = 0.2%float /\
  score_of_draw 0.5 = 0.6000000000000001%float /\
  score_of_draw Samples.top_draw = 1%float.
Proof. repeat split; reflexivity. Qed.

(** 25 ranked articles, 10 per page. *)
Example hasMore_samples :
  hasMore (snd (paginate (seq 1 25) (Num 1) (Num 10))) = true /\
  fst (paginate (seq 1 25) (Num 3) (Num 10)) = [21; 22; 23; 24; 25]%nat /\
  hasMore (snd (paginate (seq 1 25) (Num 3) (Num 10))) = false.
Proof. repeat split; reflexivity. Qed.

(** ** Pagination *)

Lemma slice_page {A : Type} (l : list A) (s n : Z) :
  0 <= s -> 0 <= n ->
  slice l (Num s) (Num (s + n)) = take (Z.to_nat n) (drop (Z.to_nat s) l).
Proof.
  intros Hs Hn. unfold slice. cbn [to_integer].
  destruct (Z.ltb_spec s 0); [lia |]. destruct (Z.ltb_spec (s + n) 0); [lia |].
  set (len := Z.of_nat (length l)).
  destruct (Z.le_gt_cases len s) as [Hbig | Hsmall].
  - rewrite !drop_ge by (unfold len in *; lia). rewrite !take_nil. reflexivity.
  - rewrite (Z.min_l s len) by lia.
    destruct (Z.le_gt_cases (s + n) len) as [Hin | Hout].
    + rewrite Z.min_l by lia. f_equal. lia.
    + rewrite Z.min_r by lia.
      rewrite !take_ge; [reflexivity | |]; rewrite length_drop; unfold len in *; lia.
Qed.

(** C5. For a page [p >= 1] and a limit in [1,100]: the page is the slice
    from [(p-1)*limit] of at most [limit] items, [total] is the length of the
    ranked list, [hasMore] is true exactly when [p*limit < total], and a page
    beyond the data is empty with [hasMore = false]. *)
Theorem C5_pagination {A : Type} (ranked : list A) (p lim : Z) :
  1 <= p -> 1 <= lim <= 100 ->
  let r := paginate ranked (Num p) (Num lim) in
  fst r = take (Z.to_nat lim) (drop (Z.to_nat ((p - 1) * lim)) ranked) /\
  (length (fst r) <= Z.to_nat lim)%nat /\
  total (snd r) = length ranked /\
  (hasMore (snd r) = true <-> p * lim < Z.of_nat (length ranked)) /\
  (Z.of_nat (length ranked) <= (p - 1) * lim -> fst r = [] /\ hasMore (snd r) = false).
Proof.
  intros Hp Hl r. subst r. unfold paginate. cbn [fst snd total hasMore sub mul add lift2 lt].
  rewrite slice_page by nia.
  repeat split.
  - rewrite length_take. lia.
  - intros H. apply Z.ltb_lt in H. lia.
  - intros H. apply Z.ltb_lt. lia.
  - rewrite drop_ge by lia. apply take_nil.
  - apply Z.ltb_ge. lia.
Qed.

Lemma C5_pagination_witness :
  fst (paginate [1; 2; 3; 4; 5] (Num 2) (Num 2)) = [3; 4] /\
  hasMore (snd (paginate [1; 2; 3; 4; 5] (Num 2) (Num 2))) = true /\
  fst (paginate [1; 2; 3; 4; 5] (Num 4) (Num 2)) = [] /\
  hasMore (snd (paginate [1; 2; 3; 4; 5] (Num 4) (Num 2))) = false.
Proof.
  pose proof (C5_pagination [1; 2; 3; 4; 5] 2 2 ltac:(lia) ltac:(lia)) as H1.
  pose proof (C5_pagination [1; 2; 3; 4; 5] 4 2 ltac:(lia) ltac:(lia)) as H2.
  cbv zeta in H1, H2.
  destruct H1 as (E1 & _ & _ & M1 & _). destruct H2 as (_ & _ & _ & _ & Z2).
  split; [exact E1 |]. split; [apply M1; cbn; lia |]. apply Z2. cbn. lia.
Defined.

(** ** Query parameters *)

(** What [validatePagination] guarantees: each result is [NaN] or within
    its bounds. *)
Lemma validatePagination_bounds (sp : URLSearchParams) :
  (page (validatePagination sp) = NaN \/
   exists p, page (validatePagination sp) = Num p /\ 1 <= p) /\
  (limit (validatePagination sp) = NaN \/
   exists l, limit (validatePagination sp) = Num l /\ 1 <= l <= 100).
Proof.
  unfold validatePagination. cbn [page limit]. split.
  - destruct (parseInt _) as [| z]; [left; reflexivity | right].
    exists (Z.max 1 z). split; [reflexivity | lia].
  - destruct (parseInt _) as [| z]; [left; reflexivity | right].
    exists (Z.max 1 (Z.min 100 z)). split; [reflexivity | lia].
Qed.




(** The sort mode of an accepted request: [latest] only when the query says
    so. *)
Lemma parse_request_sortBy (parseFloat : string -> float) (sp : URLSearchParams)
    (req : request) :
  parse_request parseFloat sp = inr req ->
  r_sortBy req = match get sp "sortBy" with
                 | Some "latest"%string => Latest
                 | _ => Relevance
                 end.
Proof.
  unfold parse_request.
  destruct (match truthy_str (get sp "minSentiment") with
            | Some v => PrimFloat.is_nan (parseFloat v) | None => false end);
    [discriminate |].
  destruct (match truthy_str (get sp "maxAge") with
            | Some w => isNaN (parseInt w) | None => false end); [discriminate |].
  intros [= <-]. reflexivity.
Qed.

(** C6, at the query [?page=abc]: [validatePagination] returns [page = NaN]
    (neither an error nor a value [>= 1]), and the handler accepts the
    request with that page; the same text in [maxAge] is rejected. *)
Theorem C6_malformed_page_accepted (parseFloat : string -> float) :
  validatePagination [("page", "abc")]%string = {| page := NaN; limit := Num 20 |} /\
  parse_request parseFloat [("page", "abc")]%string
  = inr {| r_page := NaN; r_limit := Num 20; r_includeBookmarks := false;
           r_sortBy := Relevance; r_minSentiment := None; r_maxAge := Num 168 |} /\
  parse_request parseFloat [("limit", "abc")]%string
  = inr {| r_page := Num 1; r_limit := NaN; r_includeBookmarks := false;
           r_sortBy := Relevance; r_minSentiment := None; r_maxAge := Num 168 |} /\
  parse_request parseFloat [("maxAge", "abc")]%string
  = inl "Invalid maxAge parameter: must be a number between 1 and 720"%string /\
  paginate [1; 2; 3]%nat NaN (Num 20)
  = ([], {| pg_page := NaN; pg_limit := Num 20; total := 3%nat; hasMore := false |}).
Proof. repeat split; reflexivity. Qed.

(** ** Cache *)

Section CacheFacts.
Context {V F : Type} (JSON_stringify : F -> string).

Lemma get_apply_write (c : gmap string V) (w : Cache.write) (k : string) :
  Cache.get (Cache.apply_write JSON_stringify c w) k
  = if String.eqb (Cache.write_key JSON_stringify w) k
    then Some (Cache.write_value w) else Cache.get c k.
Proof.
  assert (H : Cache.apply_write JSON_stringify c w
              = <[Cache.write_key JSON_stringify w := Cache.write_value w]> c)
    by (destruct w; reflexivity).
  rewrite H. unfold Cache.get.
  destruct (String.eqb_spec (Cache.write_key JSON_stringify w) k) as [-> | Hne].
  - apply lookup_insert_eq.
  - apply lookup_insert_ne. exact Hne.
Qed.

Lemma get_run (ws : list Cache.write) (c : gmap string V) (k : string) :
  Cache.get (Cache.run JSON_stringify ws c) k
  = match Cache.last_written JSON_stringify k ws with
    | Some v => Some v
    | None => Cache.get c k
    end.
Proof.
  revert c. induction ws as [| w ws IH]; intros c; [reflexivity |].
  unfold Cache.run in *. cbn [fold_left Cache.last_written]. rewrite IH.
  destruct (Cache.last_written JSON_stringify k ws); [reflexivity |].
  rewrite get_apply_write.
  destruct (String.eqb (Cache.write_key JSON_stringify w) k); reflexivity.
Qed.

Lemma last_written_none (ws : list (@Cache.write V F)) (k : string) :
  (forall w, w ∈ ws -> Cache.write_key JSON_stringify w <> k) ->
  Cache.last_written JSON_stringify k ws = None.
Proof.
  induction ws as [| w ws IH]; intros H; [reflexivity |]. cbn [Cache.last_written].
  rewrite IH by (intros w' Hw'; apply H; right; exact Hw').
  destruct (String.eqb_spec (Cache.write_key JSON_stringify w) k) as [E | _]; [| reflexivity].
  exfalso. apply (H w); [left | exact E].
Qed.

(** C7. A [get] after a [set] of the same key returns the value set, the
    latest [set] wins, and nothing expires: after any history of writes the
    value read under a key is the one most recently written there; a key no
    write has used reads as absent. The same for the exported accessors. *)
Theorem C7_cache_round_trip :
  (forall (c : gmap string V) k v, Cache.get (Cache.set c k v) k = Some v) /\
  (forall (c : gmap string V) k v1 v2,
      Cache.get (Cache.set (Cache.set c k v1) k v2) k = Some v2) /\
  (forall (c : gmap string V) u d,
      Cache.getCachedUserInterests (Cache.cacheUserInterests c u d) u = Some d) /\
  (forall (c : gmap string V) u d,
      Cache.getCachedUserPortfolio (Cache.cacheUserPortfolio c u d) u = Some d) /\
  (forall (c : gmap string V) f d,
      Cache.getCachedNewsArticles JSON_stringify
        (Cache.cacheNewsArticles JSON_stringify c f d) f = Some d) /\
  (forall (ws : list (@Cache.write V F)) k,
      Cache.get (Cache.run JSON_stringify ws Cache.empty) k
      = Cache.last_written JSON_stringify k ws) /\
  (forall (ws : list (@Cache.write V F)) k,
      (forall w, w ∈ ws -> Cache.write_key JSON_stringify w <> k) ->
      Cache.get (Cache.run JSON_stringify ws Cache.empty) k = None) /\
  (forall k, Cache.get (Cache.empty : gmap string V) k = None).
Proof.
  repeat apply conj.
  - intros. apply lookup_insert_eq.
  - intros. apply lookup_insert_eq.
  - intros. apply lookup_insert_eq.
  - intros. apply lookup_insert_eq.
  - intros. apply lookup_insert_eq.
  - intros. rewrite get_run.
    destruct (Cache.last_written JSON_stringify k ws); [reflexivity | apply lookup_empty].
  - intros ws k H. rewrite get_run, (last_written_none ws k H). apply lookup_empty.
  - intros. apply lookup_empty.
Qed.

End CacheFacts.

(** Reads of one user's interests see that user's last write, whatever was
    cached for portfolios and articles in between. *)
Lemma C7_cache_round_trip_witness :
  Cache.get
    (Cache.run (fun n : nat => "{}"%string)
       [Cache.WInterests "u1" 1%nat; Cache.WPortfolio "u1" 2%nat;
        Cache.WInterests "u1" 3%nat; Cache.WArticles 0%nat 4%nat]
       Cache.empty)
    "interests_u1" = Some 3%nat /\
  Cache.get
    (Cache.run (fun n : nat => "{}"%string)
       [Cache.WInterests "u1" 1%nat; Cache.WPortfolio "u1" 2%nat]
       Cache.empty)
    "interests_u2" = None.
Proof.
  pose proof (C7_cache_round_trip (V := nat) (fun n : nat => "{}"%string))
    as (_ & _ & _ & _ & _ & Hrun & _ & _).
  split; rewrite Hrun; reflexivity.
Defined.

(** ** Data accessors *)

(** C8. When the backing store reports an error, each of the five accessors
    returns its empty container. *)
Theorem C8_accessors_recover :
  (forall res e, error res = Some e -> fetchUserInterests res = []) /\
  (forall res e, error res = Some e -> fetchUserPortfolio res = []) /\
  (forall res e, error res = Some e -> fetchUserNewsHistory res = []) /\
  (forall store now filters e,
      error (store (news_query_of now filters)) = Some e ->
      fetchNewsArticles store now filters = []) /\
  (forall res ids e, error res = Some e -> fetchUserBookmarks res ids = ∅).
Proof.
  repeat split.
  - intros res e H. unfold fetchUserInterests. rewrite H. reflexivity.
  - intros res e H. unfold fetchUserPortfolio. rewrite H. reflexivity.
  - intros res e H. unfold fetchUserNewsHistory. rewrite H. reflexivity.
  - intros store now filters e H. unfold fetchNewsArticles. rewrite H. reflexivity.
  - intros res ids e H. unfold fetchUserBookmarks. rewrite H. destruct ids; reflexivity.
Qed.

Lemma C8_accessors_recover_witness :
  fetchUserInterests Samples.failed = [] /\
  fetchUserPortfolio Samples.failed = [] /\
  fetchUserNewsHistory Samples.failed = [] /\
  fetchNewsArticles (fun _ => Samples.failed) Samples.now0 Samples.filters0 = [] /\
  fetchUserBookmarks Samples.failed ["a"; "b"]%string = ∅.
Proof.
  destruct C8_accessors_recover as (H1 & H2 & H3 & H4 & H5).
  split; [apply (H1 _ "connection refused"%string); reflexivity |].
  split; [apply (H2 _ "connection refused"%string); reflexivity |].
  split; [apply (H3 _ "connection refused"%string); reflexivity |].
  split; [apply (H4 _ _ _ "connection refused"%string); reflexivity |].
  apply (H5 _ _ "connection refused"%string); reflexivity.
Defined.

(** ** Sort mode [latest] *)

Lemma by_date_keyed (l : list DatabaseNewsArticle) :
  SortSpec.keyed_by by_date_after published_at l.
Proof.
  intros a b _ _. unfold by_date_after.
  destruct (Z.ltb_spec 0 (published_at b - published_at a)),
    (Z.ltb_spec (published_at a) (published_at b)); lia || reflexivity.
Qed.

(** C4. When the query asks for [sortBy=latest] the handler draws no score (the generator is
    untouched), the result is the input sorted by the date comparator alone,
    it keeps every article, an article published later stands before one
    published earlier, and the order is the same whatever relevance scores
    the articles carry. *)
Theorem C4_latest_by_date
    (parseFloat : string -> float) (searchParams : URLSearchParams)
    (req : request) (articles : list DatabaseNewsArticle)
    (ui : list UserInterest) (up : list UserPortfolio) (uh : list UserNewsHistory)
    (ctx : PersonalizationContext) (g : rng) :
  get searchParams "sortBy" = Some "latest"%string ->
  parse_request parseFloat searchParams = inr req ->
  let res := rankedArticles req articles ui up uh ctx g in
  snd res = g /\
  fst res = sort by_date_after articles /\
  fst res ≡ₚ articles /\
  (forall i j a b,
      fst res !! i = Some a -> fst res !! j = Some b ->
      published_at b < published_at a -> (i < j)%nat) /\
  (forall score : DatabaseNewsArticle -> float,
      fst (rankedArticles req (map (fun a => with_score a (score a)) articles)
             ui up uh ctx g)
      = map (fun a => with_score a (score a)) (fst res)).
Proof.
  intros Hget Hreq res. subst res.
  pose proof (parse_request_sortBy parseFloat searchParams req Hreq) as Hmode.
  rewrite Hget in Hmode.
  unfold rankedArticles. rewrite Hmode. cbn [ret fst snd].
  split; [reflexivity |]. split; [reflexivity |].
  split; [apply SortFacts.sort_perm |].
  split; [| intros score; apply SortFacts.sort_map; reflexivity].
  intros i j a b Hi Hj Hlt.
  pose proof (SortFacts.sort_sorted by_date_after published_at articles
                (by_date_keyed articles)) as Hs.
  destruct (Nat.lt_trichotomy i j) as [H | [-> | H]]; [exact H | |].
  - rewrite Hi in Hj. injection Hj as ->. lia.
  - pose proof (SortFacts.sorted_lookup _ _ _ _ _ _ Hs Hj Hi H) as Hd.
    unfold SortSpec.descending in Hd. lia.
Qed.

Lemma C4_latest_by_date_witness :
  parse_request (fun _ => 0%float) [("sortBy", "latest")]%string
  = inr Samples.latest_request /\
  fst (rankedArticles Samples.latest_request
         [Personalization.with_score Samples.a_old 0.9%float;
          Personalization.with_score Samples.a_new 0.3%float]
         [] [] [] Samples.ctx0 (Samples.constant_rng 0.5%float))
  = [Personalization.with_score Samples.a_new 0.3%float;
     Personalization.with_score Samples.a_old 0.9%float] /\
  (0 < 1)%nat.
Proof.
  split; [reflexivity |].
  pose proof (C4_latest_by_date (fun _ => 0%float) [("sortBy", "latest")]%string
                Samples.latest_request
                [Personalization.with_score Samples.a_old 0.9%float;
                 Personalization.with_score Samples.a_new 0.3%float]
                [] [] [] Samples.ctx0 (Samples.constant_rng 0.5%float) eq_refl eq_refl)
    as (_ & Hsort & _ & Hord & _).
  split; [rewrite Hsort; reflexivity |].
  apply (Hord 0%nat 1%nat (Personalization.with_score Samples.a_new 0.3%float)
           (Personalization.with_score Samples.a_old 0.9%float));
    [reflexivity | reflexivity | cbn; lia].
Defined.

(** ** The candidate pool *)


(** The three values of the normalised sentiment. *)
Lemma mapSentimentToScore_values (s : option string) :
  mapSentimentToScore s =
    match s with
    | Some l =>
        if String.eqb (toLowerCase l) "positive" then 0.7%float
        else if String.eqb (toLowerCase l) "negative" then (-0.3)%float
        else 0%float
    | None => 0%float
    end.
Proof.
  unfold mapSentimentToScore. destruct s as [l |]; [| reflexivity]. cbn [option_map].
  destruct (String.eqb_spec (toLowerCase l) "positive") as [-> | Hp]; [reflexivity |].
  destruct (String.eqb_spec (toLowerCase l) "negative") as [-> | Hn]; [reflexivity |].
  repeat match goal with
         | |- context [match ?x with _ => _ end] => destruct x; try reflexivity; try congruence
         end.
Qed.



(** ** Ranking *)

Import Scored B64.

Lemma draws_from_succ (g : rng) (n : nat) :
  draws_from g (S n)
  = draw g (calls g) :: draws_from {| draw := draw g; calls := S (calls g) |} n.
Proof.
  unfold draws_from. cbn [seq map draw calls]. rewrite Nat.add_0_r. f_equal.
  rewrite <- seq_shift, map_map. apply map_ext. intros i. f_equal. lia.
Qed.

Lemma mapR_score (articles : list DatabaseNewsArticle) (g : rng) :
  mapR score_article articles g = (scored_with g articles, advance g (length articles)).
Proof.
  revert g. induction articles as [| a rest IH]; intros g.
  - cbn. unfold advance. rewrite Nat.add_0_r. destruct g; reflexivity.
  - cbn [mapR]. unfold bind at 1. unfold score_article at 1, random_score, bind, ret, Math_random.
    fold (score_article). unfold bind. rewrite IH. f_equal.
    + unfold scored_with. cbn [length]. rewrite draws_from_succ. reflexivity.
    + unfold advance. cbn [draw calls length]. f_equal. lia.
Qed.

(** What [rankAndFilterArticles] computes: the scored articles, sorted; the
    generator has advanced by one draw per article. *)
Lemma rank_spec (articles : list DatabaseNewsArticle)
    (ui : list UserInterest) (up : list UserPortfolio) (uh : list UserNewsHistory)
    (opts : options) (g : rng) :
  rankAndFilterArticles articles ui up uh opts g
  = (sort by_score_after (scored_with g articles), advance g (length articles)).
Proof.
  unfold rankAndFilterArticles, bind.
  rewrite mapR_score. reflexivity.
Qed.

Lemma scored_with_length (g : rng) (articles : list DatabaseNewsArticle) :
  length (scored_with g articles) = length articles.
Proof.
  unfold scored_with, draws_from.
  rewrite length_zip_with_l_eq; [reflexivity |].
  rewrite !length_map, length_seq. reflexivity.
Qed.

Lemma scored_with_elem (g : rng) (articles : list DatabaseNewsArticle) (a : DatabaseNewsArticle) :
  a ∈ scored_with g articles ->
  exists a0 n, a0 ∈ articles /\ a = with_score a0 (score_of_draw (draw g n)).
Proof.
  unfold scored_with, draws_from. intros H.
  apply elem_of_zip_with in H as (a0 & y & -> & Ha0 & Hy).
  apply list_elem_of_In, in_map_iff in Hy as (r & <- & Hr).
  apply in_map_iff in Hr as (i & <- & _). eauto.
Qed.

Lemma scored_with_well_scored (g : rng) (articles : list DatabaseNewsArticle)
    (a : DatabaseNewsArticle) :
  rng_ok g -> a ∈ scored_with g articles -> well_scored a.
Proof.
  intros Hg Ha. apply scored_with_elem in Ha as (a0 & n & _ & ->).
  destruct (Hg n) as [H0 H1].
  destruct (B64Facts.score_of_draw_spec _ H0 H1) as (v & Hv & Hr).
  exists (score_of_draw (draw g n)), v. auto.
Qed.

Lemma pos_finite_truthy (x : float) (v : Z) : pos_finite x v -> or_zero (Some x) = x.
Proof.
  intros (m & e & E & Hb & _). unfold or_zero, PrimFloat.is_nan, PrimFloat.is_zero.
  rewrite !FloatAxioms.eqb_spec, E. change (Prim2SF PrimFloat.zero) with (S754_zero false).
  unfold SFeqb. rewrite B64Facts.SFcompare_fval by assumption.
  rewrite Z.compare_refl. reflexivity.
Qed.

Lemma pos_finite_fkey (x : float) (v : Z) : pos_finite x v -> fkey x = v.
Proof. intros (m & e & E & _ & ->). unfold fkey. rewrite E. reflexivity. Qed.

Lemma well_scored_key (a : DatabaseNewsArticle) :
  well_scored a ->
  exists s, relevance_score a = Some s /\ or_zero (relevance_score a) = s /\
            pos_finite s (score_key a).
Proof.
  intros (s & v & E & Hp & _). exists s. unfold score_key. rewrite E.
  rewrite (pos_finite_truthy s v Hp), (pos_finite_fkey s v Hp). auto.
Qed.

Lemma by_score_keyed (l : list DatabaseNewsArticle) :
  (forall a, a ∈ l -> well_scored a) -> SortSpec.keyed_by by_score_after score_key l.
Proof.
  intros Hl a b Ha Hb.
  destruct (well_scored_key a (Hl a Ha)) as (sa & _ & Ea & Pa).
  destruct (well_scored_key b (Hl b Hb)) as (sb & _ & Eb & Pb).
  unfold by_score_after. rewrite Ea, Eb.
  apply (B64Facts.pos_finite_sub_sign _ _ _ _ Pa Pb).
Qed.

Lemma has_score_key (s : float) (a : DatabaseNewsArticle) :
  well_scored a ->
  has_score s a = match key_of_float s with
                  | Some k => score_key a =? k
                  | None => false
                  end.
Proof.
  intros Ha. destruct (well_scored_key a Ha) as (x & E & _ & (m & e & Ex & Hb & Hk)).
  unfold has_score, key_of_float. rewrite E, FloatAxioms.eqb_spec, Ex, Hk.
  pose proof (Prim2SF_valid s) as Hs.
  destruct (Prim2SF s) as [[] | [] | | [] m' e']; try reflexivity.
  cbn [valid_binary] in Hs. unfold SFeqb. rewrite B64Facts.SFcompare_fval by assumption.
  destruct (Z.compare_spec (fval m e) (fval m' e')),
    (Z.eqb_spec (fval m e) (fval m' e')); try reflexivity; lia.
Qed.

Lemma filter_has_score (s : float) (l : list DatabaseNewsArticle) :
  (forall a, a ∈ l -> well_scored a) ->
  List.filter (has_score s) l
  = match key_of_float s with
    | Some k => List.filter (fun a => score_key a =? k) l
    | None => []
    end.
Proof.
  intros Hl.
  destruct (key_of_float s) as [k |] eqn:Ek.
  - apply filter_ext_in. intros a Ha.
    rewrite (has_score_key s a (Hl a (proj2 (list_elem_of_In _ _) Ha))), Ek. reflexivity.
  - induction l as [| a l IH]; [reflexivity |]. cbn [List.filter].
    rewrite (has_score_key s a (Hl a ltac:(left))), Ek.
    apply IH. intros b Hb. apply Hl. right. exact Hb.
Qed.




(** C2 (amended). [rankAndFilterArticles] filters nothing: its result is
    a rearrangement of the scored input, so every input article is present
    with its score, whatever [options.minRelevanceScore] is. *)
Theorem C2_no_score_filter
    (articles : list DatabaseNewsArticle)
    (ui : list UserInterest) (up : list UserPortfolio) (uh : list UserNewsHistory)
    (opts : options) (g : rng) :
  let out := fst (rankAndFilterArticles articles ui up uh opts g) in
  out ≡ₚ scored_with g articles /\
  length out = length articles /\
  (forall i a, articles !! i = Some a ->
               with_score a (score_of_draw (draw g (calls g + i)%nat)) ∈ out).
Proof.
  intros out. subst out. rewrite rank_spec. cbn [fst].
  split; [apply SortFacts.sort_perm |].
  split; [rewrite SortFacts.sort_perm; apply scored_with_length |].
  intros i a Hi. rewrite SortFacts.sort_perm. unfold scored_with, draws_from.
  apply (elem_of_lookup_zip_with_2 _ _ _ _ _ a i Hi).
  rewrite list_lookup_fmap, list_lookup_fmap.
  rewrite lookup_seq_lt by (apply lookup_lt_Some in Hi; exact Hi). reflexivity.
Qed.

Lemma C2_no_score_filter_witness :
  with_score Samples.a_old (score_of_draw 0)
  ∈ fst (rankAndFilterArticles [Samples.a_old] [] [] []
           (Samples.threshold_options 0.5%float) (Samples.constant_rng 0%float)).
Proof.
  pose proof (C2_no_score_filter [Samples.a_old] [] [] []
                (Samples.threshold_options 0.5%float) (Samples.constant_rng 0%float))
    as (_ & _ & H).
  apply (H 0%nat Samples.a_old). reflexivity.
Defined.

(** With [minRelevanceScore = 0.5] and a draw of 0, the article scores 0.2,
    below the threshold, and is returned. *)
Lemma C2_counterexample :
  fst (rankAndFilterArticles [Samples.a_old] [] [] []
         (Samples.threshold_options 0.5%float) (Samples.constant_rng 0%float))
  = [with_score Samples.a_old (score_of_draw 0)] /\
  minRelevanceScore (Samples.threshold_options 0.5%float) = Some 0.5%float /\
  PrimFloat.ltb (score_of_draw 0) 0.5 = true.
Proof. vm_compute. repeat split; reflexivity. Qed.

(** C3 (amended). The result is sorted by relevance score, descending,
    and the sort is stable: the articles of any one score stand in their
    input order. No tie is broken on the publication time or the id. *)
Theorem C3_sorted_stable
    (articles : list DatabaseNewsArticle)
    (ui : list UserInterest) (up : list UserPortfolio) (uh : list UserNewsHistory)
    (opts : options) (g : rng) :
  rng_ok g ->
  let out := fst (rankAndFilterArticles articles ui up uh opts g) in
  (forall i j a b,
      out !! i = Some a -> out !! j = Some b -> (i < j)%nat ->
      exists sa sb, relevance_score a = Some sa /\ relevance_score b = Some sb /\
                    PrimFloat.leb sb sa = true) /\
  (forall s, List.filter (has_score s) out
             = List.filter (has_score s) (scored_with g articles)).
Proof.
  intros Hg out. subst out. rewrite rank_spec. cbn [fst].
  assert (Hws : forall a, a ∈ scored_with g articles -> well_scored a)
    by (intros a; apply scored_with_well_scored; exact Hg).
  assert (Hws' : forall a, a ∈ sort by_score_after (scored_with g articles) -> well_scored a)
    by (intros a Ha; apply Hws; rewrite SortFacts.sort_perm in Ha; exact Ha).
  pose proof (by_score_keyed _ Hws) as Hk.
  split.
  - intros i j a b Hi Hj Hlt.
    pose proof (SortFacts.sorted_lookup _ _ _ _ _ _
                  (SortFacts.sort_sorted by_score_after score_key _ Hk) Hi Hj Hlt) as Hd.
    destruct (well_scored_key a (Hws' a (list_elem_of_lookup_2 _ _ _ Hi))) as (sa & Ea & _ & Pa).
    destruct (well_scored_key b (Hws' b (list_elem_of_lookup_2 _ _ _ Hj))) as (sb & Eb & _ & Pb).
    exists sa, sb. split; [exact Ea |]. split; [exact Eb |].
    rewrite (B64Facts.pos_finite_leb _ _ _ _ Pb Pa). apply Z.leb_le. exact Hd.
  - intros s. rewrite (filter_has_score s _ Hws'), (filter_has_score s _ Hws).
    destruct (key_of_float s) as [k |]; [| reflexivity].
    apply SortFacts.sort_stable. exact Hk.
Qed.

Lemma C3_sorted_stable_witness :
  List.filter (has_score (score_of_draw 0.5))
    (fst (rankAndFilterArticles [Samples.a_old; Samples.a_new] [] [] []
            Samples.no_options (Samples.constant_rng 0.5%float)))
  = List.filter (has_score (score_of_draw 0.5))
      (scored_with (Samples.constant_rng 0.5%float) [Samples.a_old; Samples.a_new]).
Proof.
  apply (C3_sorted_stable [Samples.a_old; Samples.a_new] [] [] [] Samples.no_options
           (Samples.constant_rng 0.5%float)).
  intros n. split; reflexivity.
Defined.

(** Two articles with the same draw, hence the same score: the one published
    earlier was first in the input and stays first in the result. *)
Lemma C3_counterexample :
  fst (rankAndFilterArticles [Samples.a_old; Samples.a_new] [] [] []
         Samples.no_options (Samples.constant_rng 0.5%float))
  = [with_score Samples.a_old (score_of_draw 0.5);
     with_score Samples.a_new (score_of_draw 0.5)] /\
  published_at Samples.a_old < published_at Samples.a_new.
Proof. vm_compute. split; reflexivity. Qed.

(** C10 (amended). Every score [rankAndFilterArticles] assigns lies in
    the closed interval from 0.2 to 1.0 and exceeds the handler's threshold
    0.05; nothing is removed from the ranked output, also in the handler's
    call. *)
Theorem C10_score_range
    (articles : list DatabaseNewsArticle)
    (ui : list UserInterest) (up : list UserPortfolio) (uh : list UserNewsHistory)
    (opts : options) (g : rng) :
  rng_ok g ->
  let out := fst (rankAndFilterArticles articles ui up uh opts g) in
  (forall a, a ∈ out ->
             exists s, relevance_score a = Some s /\
                       PrimFloat.leb 0.2 s = true /\ PrimFloat.leb s 1 = true /\
                       PrimFloat.ltb 0.05 s = true) /\
  length out = length articles /\
  (forall req ctx, r_sortBy req = Relevance ->
                   fst (rankedArticles req articles ui up uh ctx g) = out).
Proof.
  intros Hg out. subst out. split; [| split].
  - rewrite rank_spec. cbn [fst]. intros a Ha. rewrite SortFacts.sort_perm in Ha.
    apply scored_with_elem in Ha as (a0 & n & _ & ->).
    destruct (Hg n) as [H0 H1].
    destruct (B64Facts.score_of_draw_range _ H0 H1) as (Hlo & Hhi & Hmin).
    exists (score_of_draw (draw g n)). auto.
  - rewrite rank_spec. cbn [fst]. rewrite SortFacts.sort_perm. apply scored_with_length.
  - intros req ctx Hmode. unfold rankedArticles. rewrite Hmode.
    rewrite !rank_spec. reflexivity.
Qed.

Lemma C10_score_range_witness :
  length (fst (rankAndFilterArticles [Samples.a_old; Samples.a_new] [] [] []
                 Samples.no_options Samples.alternating_rng))
  = 2%nat.
Proof.
  apply (C10_score_range [Samples.a_old; Samples.a_new] [] [] [] Samples.no_options
           Samples.alternating_rng).
  intros n. cbn [draw Samples.alternating_rng]. destruct (Nat.even n); split; reflexivity.
Defined.

(** When [Math.random()] returns the largest double below 1, the product
    with 0.8 and the sum with 0.2 round to exactly 1.0. *)
Lemma C10_counterexample :
  PrimFloat.leb 0 Samples.top_draw = true /\
  PrimFloat.ltb Samples.top_draw 1 = true /\
  map relevance_score
    (fst (rankedArticles Samples.relevance_request [Samples.a_old] [] [] []
            Samples.ctx0 (Samples.constant_rng Samples.top_draw)))
  = [Some 1%float] /\
  PrimFloat.ltb 1 1 = false.
Proof. vm_compute. repeat split; reflexivity. Qed.

(* ===================================================================== *)
(** * Part V: further properties of the code                              *)
(* ===================================================================== *)

Import JsString ErrorHandling.

(** ** Pages *)

Lemma concat_chunks {A : Type} (l : list A) (k n : nat) :
  concat (map (fun i => take k (drop (i * k) l)) (seq 0 n)) = take (n * k) l.
Proof.
  induction n as [| n IH]; [reflexivity |].
  rewrite seq_S, map_app, concat_app, IH. cbn [map concat Nat.add].
  rewrite app_nil_r, take_take_drop. f_equal. lia.
Qed.

Lemma paginate_page {A : Type} (l : list A) (p lim : Z) :
  1 <= p -> 1 <= lim ->
  fst (paginate l (Num p) (Num lim))
  = take (Z.to_nat lim) (drop (Z.to_nat (p - 1) * Z.to_nat lim) l).
Proof.
  intros Hp Hl. unfold paginate. cbn [fst sub mul add lift2].
  rewrite slice_page by nia. f_equal. f_equal. nia.
Qed.

(** X1. Pages partition the ranked list: for a limit of at least 1 the pages
    1 to [n], one after the other, are the first [n * limit] ranked articles
    in order, hence the whole list once [n * limit] reaches its length. *)
Theorem X1_pages_partition {A : Type} (ranked : list A) (lim : Z) (n : nat) :
  1 <= lim ->
  concat (map (fun p => fst (paginate ranked (Num (Z.of_nat p)) (Num lim))) (seq 1 n))
  = take (n * Z.to_nat lim) ranked /\
  ((length ranked <= n * Z.to_nat lim)%nat ->
   concat (map (fun p => fst (paginate ranked (Num (Z.of_nat p)) (Num lim))) (seq 1 n))
   = ranked).
Proof.
  intros Hl.
  assert (H : concat (map (fun p => fst (paginate ranked (Num (Z.of_nat p)) (Num lim)))
                        (seq 1 n))
              = take (n * Z.to_nat lim) ranked).
  { rewrite <- seq_shift, map_map. rewrite <- concat_chunks. f_equal.
    apply map_ext. intros i. rewrite paginate_page by lia. do 2 f_equal. lia. }
  split; [exact H |]. intros Hn. rewrite H. apply take_ge. exact Hn.
Qed.

Lemma X1_pages_partition_witness :
  concat (map (fun p => fst (paginate [1; 2; 3; 4; 5; 6; 7]%nat (Num (Z.of_nat p)) (Num 3)))
            (seq 1 3))
  = [1; 2; 3; 4; 5; 6; 7]%nat.
Proof.
  apply (X1_pages_partition [1; 2; 3; 4; 5; 6; 7]%nat 3 3); [lia | cbn; lia].
Defined.

(** X2. [hasMore] announces the next page: for a page and a limit of at
    least 1, [hasMore] is true exactly when the following page holds an
    article. *)
Theorem X2_hasMore_next_page {A : Type} (ranked : list A) (p lim : Z) :
  1 <= p -> 1 <= lim ->
  hasMore (snd (paginate ranked (Num p) (Num lim))) = true <->
  (0 < length (fst (paginate ranked (Num (p + 1)) (Num lim))))%nat.
Proof.
  intros Hp Hl. rewrite paginate_page by lia.
  unfold paginate. cbn [snd hasMore sub mul add lift2 lt].
  rewrite length_take, length_drop, Z.ltb_lt. nia.
Qed.

Lemma X2_hasMore_next_page_witness :
  hasMore (snd (paginate [1; 2; 3; 4; 5]%nat (Num 2) (Num 2))) = true /\
  (0 < length (fst (paginate [1; 2; 3; 4; 5]%nat (Num 3) (Num 2))))%nat.
Proof.
  pose proof (X2_hasMore_next_page [1; 2; 3; 4; 5]%nat 2 2 ltac:(lia) ltac:(lia)) as H.
  split; [reflexivity |]. apply H. reflexivity.
Defined.

(** X3. Whatever the query string, the page cut with the values of
    [validatePagination] holds at most 100 articles; when [page] or [limit]
    came out as [NaN] the page is empty and [hasMore] is false. *)
Theorem X3_page_size_any_query {A : Type} (searchParams : URLSearchParams)
    (ranked : list A) :
  let p := validatePagination searchParams in
  let r := paginate ranked (page p) (limit p) in
  (length (fst r) <= 100)%nat /\
  (page p = NaN \/ limit p = NaN -> fst r = [] /\ hasMore (snd r) = false).
Proof.
  intros p r.
  assert (Hnan : page p = NaN \/ limit p = NaN -> fst r = [] /\ hasMore (snd r) = false).
  { assert (Hs : slice ranked NaN NaN = []).
    { unfold slice. cbn [to_integer]. change (0 <? 0) with false. cbv iota.
      rewrite Z.sub_diag. reflexivity. }
    subst r. unfold paginate. intros [-> | ->]; cbn [sub mul add lift2 fst snd hasMore lt].
    - split; [exact Hs | reflexivity].
    - destruct (page p); cbn [sub mul add lift2 lt]; split; (exact Hs || reflexivity). }
  split; [| exact Hnan].
  destruct (validatePagination_bounds searchParams) as [[Hp | (pz & Hp & Hpz)] [Hl | (lz & Hl & Hlz)]];
    fold p in Hp, Hl.
  - rewrite (proj1 (Hnan (or_introl Hp))). cbn. lia.
  - rewrite (proj1 (Hnan (or_introl Hp))). cbn. lia.
  - rewrite (proj1 (Hnan (or_intror Hl))). cbn. lia.
  - subst r. rewrite Hp, Hl, paginate_page by lia. rewrite length_take. lia.
Qed.

(** ** The request guards *)

Lemma append_cons (c : ascii) (s1 s2 : string) :
  (String c s1 +:+ s2 = String c (s1 +:+ s2))%string.
Proof. reflexivity. Qed.

Lemma startsWith_app (pat rest : string) : startsWith (pat +:+ rest) pat = true.
Proof.
  induction pat as [| c pat IH]; [reflexivity |].
  rewrite append_cons. cbn [startsWith].
  rewrite Ascii.eqb_refl, IH. reflexivity.
Qed.

Lemma truthy_str_app (c : ascii) (pat rest : string) :
  truthy_str (Some (String c pat +:+ rest)%string) = Some (String c pat +:+ rest)%string.
Proof. reflexivity. Qed.

Lemma drop_chars_app (pat rest : string) : drop_chars (String.length pat) (pat +:+ rest) = rest.
Proof.
  induction pat as [| c pat IH]; [reflexivity |].
  rewrite append_cons. cbn [String.length drop_chars]. exact IH.
Qed.

Lemma startsWith_inv (s pat : string) :
  startsWith s pat = true -> s = pat +:+ drop_chars (String.length pat) s.
Proof.
  revert s. induction pat as [| c pat IH]; intros s H; [reflexivity |].
  destruct s as [| d s]; [discriminate |]. cbn [startsWith] in H.
  apply andb_prop in H as [Hc Hs]. apply Ascii.eqb_eq in Hc. subst d.
  rewrite append_cons. cbn [String.length drop_chars]. f_equal. apply IH. exact Hs.
Qed.

Lemma replace_prefix (s pat : string) :
  startsWith s pat = true -> replace s pat "" = drop_chars (String.length pat) s.
Proof. intros H. destruct s; cbn [replace]; rewrite H; reflexivity. Qed.

Lemma bearer_cases (h : string) :
  (exists token, h = ("Bearer " +:+ token)%string /\ startsWith h "Bearer " = true /\
                 replace h "Bearer " "" = token) \/
  ((forall token, h <> ("Bearer " +:+ token)%string) /\ startsWith h "Bearer " = false).
Proof.
  destruct (startsWith h "Bearer ") eqn:Hs.
  - left. exists (drop_chars (String.length "Bearer ") h).
    split; [apply (startsWith_inv _ _ Hs) |]. split; [reflexivity |].
    apply (replace_prefix _ _ Hs).
  - right. split; [| reflexivity]. intros token ->.
    rewrite startsWith_app in Hs. discriminate.
Qed.

(** X4. [validateAuthToken] returns a token exactly for a header that is
    ["Bearer "] followed by that token (the token may itself contain
    ["Bearer "]); every other header, the absent and the empty one included,
    is refused. *)
Theorem X4_bearer_token (authHeader : option string) (token : string) :
  validateAuthToken authHeader = Return token <->
  authHeader = Some ("Bearer " +:+ token)%string.
Proof.
  unfold validateAuthToken. split.
  - destruct authHeader as [[| c h] |]; cbn [truthy_str]; try discriminate.
    destruct (bearer_cases (String c h)) as [(t & E & Hs & Hr) | [_ Hs]];
      rewrite Hs; [| discriminate].
    rewrite Hr. intros [= <-]. f_equal. exact E.
  - intros ->. rewrite truthy_str_app.
    rewrite startsWith_app, (replace_prefix _ _ (startsWith_app _ _)), drop_chars_app.
    reflexivity.
Qed.

(** X5. [validateOptionalAuthToken] lets a request through without a token
    exactly when the header is absent or empty, and with a token exactly
    when the header is ["Bearer "] followed by it. *)
Theorem X5_optional_bearer_token (authHeader : option string) :
  (validateOptionalAuthToken authHeader = Return None <->
   authHeader = None \/ authHeader = Some EmptyString) /\
  (forall token,
      validateOptionalAuthToken authHeader = Return (Some token) <->
      authHeader = Some ("Bearer " +:+ token)%string).
Proof.
  unfold validateOptionalAuthToken. split; [| intros token]; split.
  - destruct authHeader as [[| c h] |]; cbn [truthy_str]; auto.
    destruct (startsWith (String c h) "Bearer "); discriminate.
  - intros [-> | ->]; reflexivity.
  - destruct authHeader as [[| c h] |]; cbn [truthy_str]; try discriminate.
    destruct (bearer_cases (String c h)) as [(t & E & Hs & Hr) | [_ Hs]];
      rewrite Hs; [| discriminate].
    rewrite Hr. intros [= <-]. f_equal. exact E.
  - intros ->. rewrite truthy_str_app.
    rewrite startsWith_app, (replace_prefix _ _ (startsWith_app _ _)), drop_chars_app.
    reflexivity.
Qed.

Import Handler.

(** X6. How the personalized handler answers a [GET] request before any data
    is loaded. It goes on only with a [Bearer] header whose token verifies to
    a user with a non-empty id and with an accepted query. A header that is
    not ["Bearer ..."] is answered 401 with the message of
    [validateAuthToken]. Every other failure (the token does not verify, the
    user has no id, [minSentiment] or [maxAge] is not a number) is answered
    500 with the generic message. No request is answered 429. *)
Theorem X6_guard_failures
    (parseFloat : string -> float) (getUser : string -> option user) (now : Z)
    (toISOString : Z -> string) (timestamp : string) (req : NextRequest) :
  method req = "GET"%string ->
  match withErrorHandling timestamp (guards parseFloat getUser now toISOString) req with
  | inl (userId, r) =>
      exists token u,
        header (headers req) "authorization" = Some ("Bearer " +:+ token)%string /\
        getUser token = Some u /\ user_id u = Some userId /\ userId <> ""%string /\
        parse_request parseFloat (searchParams req) = inr r
  | inr e =>
      e_statusCode e <> 429 /\
      ((e_statusCode e = 401 /\
        e_message e
        = "Missing or invalid Authorization header. Please provide a valid Bearer token."%string /\
        forall token,
          header (headers req) "authorization" <> Some ("Bearer " +:+ token)%string) \/
       (e_statusCode e = 500 /\
        e_message e = "An unexpected error occurred"%string /\
        exists token,
          header (headers req) "authorization" = Some ("Bearer " +:+ token)%string /\
          (getUser token = None \/
           (exists u, getUser token = Some u /\ truthy_str (user_id u) = None) \/
           (exists u message,
               getUser token = Some u /\
               parse_request parseFloat (searchParams req) = inl message))))
  end.
Proof.
  intros Hm. unfold withErrorHandling, guards, validateMethod. rewrite Hm.
  cbn [existsb String.eqb Ascii.eqb Bool.eqb andb orb and_then checkRateLimit allowed negb].
  unfold validateAuthToken.
  destruct (header (headers req) "authorization") as [[| c h] |]; cbn [truthy_str and_then].
  - vm_compute (includes _ "Authorization"). cbn [createErrorResponse e_statusCode e_message].
    split; [discriminate |]. left. repeat split. intros token H. discriminate.
  - destruct (bearer_cases (String c h)) as [(t & E & Hs & Hr) | [Hn Hs]]; rewrite Hs.
    + rewrite Hr. cbn [and_then]. unfold verifySupabaseToken.
      apply (f_equal Some) in E.
      destruct (getUser t) as [u |] eqn:Hu; cbn [and_then].
      * destruct (user_id u) as [[| d uid] |] eqn:Hid; cbn [truthy_str].
        -- vm_compute (includes _ _). cbn [createErrorResponse e_statusCode e_message].
           split; [discriminate |]. right. repeat split. exists t. split; [exact E |].
           right. left. exists u. rewrite Hid. auto.
        -- destruct (parse_request parseFloat (searchParams req)) as [message | r] eqn:Hp.
           ++ assert (Hmsg : includes message "Authorization" = false /\
                             includes message "Rate limit" = false).
              { unfold parse_request in Hp.
                destruct (match truthy_str (get (searchParams req) "minSentiment") with
                          | Some v => PrimFloat.is_nan (parseFloat v) | None => false end);
                  [injection Hp as <-; split; reflexivity |].
                destruct (match truthy_str (get (searchParams req) "maxAge") with
                          | Some v => isNaN (parseInt v) | None => false end);
                  [injection Hp as <-; split; reflexivity | discriminate]. }
              destruct Hmsg as [-> ->].
              cbn [createErrorResponse e_statusCode e_message].
              split; [discriminate |]. right. repeat split. exists t. split; [exact E |].
              right. right. exists u, message. auto.
           ++ exists t, u. repeat split; try assumption. discriminate.
        -- vm_compute (includes _ _). cbn [createErrorResponse e_statusCode e_message].
           split; [discriminate |]. right. repeat split. exists t. split; [exact E |].
           right. left. exists u. rewrite Hid. auto.
      * vm_compute (includes _ _). cbn [createErrorResponse e_statusCode e_message].
        split; [discriminate |]. right. repeat split. exists t. split; [exact E |].
        left. exact Hu.
    + vm_compute (includes _ "Authorization"). cbn [createErrorResponse e_statusCode e_message].
      split; [discriminate |]. left. repeat split. intros token H.
      apply (Hn token). congruence.
  - vm_compute (includes _ "Authorization"). cbn [createErrorResponse e_statusCode e_message].
    split; [discriminate |]. left. repeat split. intros token H. discriminate.
Qed.

(** A verified user who sends [maxAge=abc] is answered 500. *)
Lemma X6_guard_failures_witness :
  method (Samples.http_request "GET" (Some "Bearer good") [("maxAge", "abc")])%string
  = "GET"%string /\
  exists e,
    withErrorHandling "t"
      (guards (fun _ => 0%float) Samples.known_user 0 (fun _ => EmptyString))
      (Samples.http_request "GET" (Some "Bearer good") [("maxAge", "abc")])%string
    = inr e /\
    e_statusCode e = 500.
Proof.
  split; [reflexivity |].
  pose proof (X6_guard_failures (fun _ => 0%float) Samples.known_user 0
                (fun _ => EmptyString) "t"
                (Samples.http_request "GET" (Some "Bearer good") [("maxAge", "abc")])%string
                eq_refl) as H.
  destruct (withErrorHandling "t"
              (guards (fun _ => 0%float) Samples.known_user 0 (fun _ => EmptyString))
              (Samples.http_request "GET" (Some "Bearer good") [("maxAge", "abc")])%string)
    as [[u r] | e] eqn:E.
  - vm_compute in E. discriminate.
  - exists e. split; [reflexivity |].
    destruct H as [_ [(_ & _ & Hn) | (Hs & _)]]; [| exact Hs].
    exfalso. apply (Hn "good"%string). reflexivity.
Defined.

(** X7. The two routes answer a method other than [GET] differently: the
    public feed with 405 and the message naming the method, whatever the
    method; the personalized handler, whose [validateMethod] throws, with 500
    and the generic message for each of the other standard methods. *)
Theorem X7_method_not_allowed
    (parseFloat : string -> float) (getUser : string -> option user) (now : Z)
    (toISOString : Z -> string) (timestamp : string)
    (store : news_query -> response SupabaseNewsArticle) (req : NextRequest) :
  (method req <> "GET"%string ->
   NewsRoute.handler store now req
   = NewsRoute.MethodNotAllowed ("Method " +:+ method req +:+ " not allowed")%string) /\
  (In (method req) ["POST"; "PUT"; "PATCH"; "DELETE"; "HEAD"; "OPTIONS"]%string ->
   withErrorHandling timestamp (guards parseFloat getUser now toISOString) req
   = inr (createErrorResponse timestamp "An unexpected error occurred" 500)).
Proof.
  split.
  - intros Hm. unfold NewsRoute.handler.
    destruct (String.eqb_spec (method req) "GET"); [contradiction | reflexivity].
  - intros Hm. unfold withErrorHandling, guards, validateMethod.
    cbn [In] in Hm.
    repeat (destruct Hm as [<- | Hm]; [reflexivity |]). contradiction.
Qed.

(** ** The accepted request and the candidate pool *)

Lemma parse_request_pagination (parseFloat : string -> float) (sp : URLSearchParams)
    (req : request) :
  parse_request parseFloat sp = inr req ->
  r_page req = page (validatePagination sp) /\
  r_limit req = limit (validatePagination sp) /\
  r_includeBookmarks req
  = match get sp "includeBookmarks" with Some v => String.eqb v "true" | None => false end.
Proof.
  unfold parse_request.
  destruct (match truthy_str (get sp "minSentiment") with
            | Some v => PrimFloat.is_nan (parseFloat v) | None => false end);
    [discriminate |].
  destruct (match truthy_str (get sp "maxAge") with
            | Some w => isNaN (parseInt w) | None => false end); [discriminate |].
  intros [= <-]. repeat split; reflexivity.
Qed.



Lemma fetchNewsArticles_length (store : news_query -> response SupabaseNewsArticle)
    (now : Z) (filters : news_filters) :
  (length (fetchNewsArticles store now filters)
   <= length (data_or_empty (store (news_query_of now filters))))%nat.
Proof.
  unfold fetchNewsArticles.
  destruct (error (store (news_query_of now filters))); [cbn; lia |].
  destruct (f_minSentiment filters) as [m |]; [| rewrite length_map; lia].
  etransitivity; [apply List.filter_length_le | rewrite length_map; lia].
Qed.

Lemma rankedArticles_length (req : request) (articles : list DatabaseNewsArticle)
    (ui : list UserInterest) (up : list UserPortfolio) (uh : list UserNewsHistory)
    (ctx : PersonalizationContext) (g : rng) :
  length (fst (rankedArticles req articles ui up uh ctx g)) = length articles.
Proof.
  unfold rankedArticles. destruct (r_sortBy req).
  - rewrite rank_spec. cbn [fst]. rewrite SortFacts.sort_perm. apply scored_with_length.
  - cbn [ret fst]. rewrite SortFacts.sort_perm. reflexivity.
Qed.

Lemma table_store_range (rows : list SupabaseNewsArticle) (q : news_query) (from to : Z) :
  q_range q = (Num from, Num to) ->
  Z.of_nat (length (data_or_empty (table_store rows q))) <= Z.max 0 (to - from + 1).
Proof.
  intros Hq. unfold table_store, data_or_empty. rewrite Hq.
  destruct ((0 <=? from) && (from <=? to))%bool; cbn [data length]; [| lia].
  rewrite length_take. lia.
Qed.

Lemma paginate_nan_limit {A : Type} (l : list A) (p : num) :
  fst (paginate l p NaN) = [] /\ hasMore (snd (paginate l p NaN)) = false.
Proof.
  assert (Hs : slice l NaN NaN = []).
  { unfold slice. cbn [to_integer]. change (0 <? 0) with false. cbv iota.
    rewrite Z.sub_diag. reflexivity. }
  unfold paginate. destruct p; cbn [sub mul add lift2 fst snd hasMore lt]; auto.
Qed.

(** X9. The personalized feed is cut from a pool of at most
    [min(500, 10 * limit)] rows: for a store that returns no more rows than
    the range asks for, the ranked list is as long as the pool, the pool
    holds at most 500 articles, and every page after the tenth is empty with
    [hasMore = false], whatever the table holds. *)
Theorem X9_pages_beyond_pool
    (parseFloat : string -> float) (searchParams : URLSearchParams) (r : request)
    (store : news_query -> response SupabaseNewsArticle) (now : Z)
    (ui : list UserInterest) (up : list UserPortfolio) (uh : list UserNewsHistory)
    (ctx : PersonalizationContext) (g : rng) :
  parse_request parseFloat searchParams = inr r ->
  (forall q from to,
      q_range q = (Num from, Num to) ->
      Z.of_nat (length (data_or_empty (store q))) <= Z.max 0 (to - from + 1)) ->
  let pool := fetchNewsArticles store now (newsFilters r) in
  let ranked := fst (rankedArticles r pool ui up uh ctx g) in
  length ranked = length pool /\
  (forall l, r_limit r = Num l -> Z.of_nat (length pool) <= Z.min 500 (10 * l)) /\
  (forall p, r_page r = Num p -> 10 < p ->
             fst (paginate ranked (r_page r) (r_limit r)) = [] /\
             hasMore (snd (paginate ranked (r_page r) (r_limit r))) = false).
Proof.
  intros Hr Hstore pool ranked.
  assert (Hlen : length ranked = length pool) by apply rankedArticles_length.
  destruct (parse_request_pagination _ _ _ Hr) as (_ & Hl & _).
  pose proof (validatePagination_bounds searchParams) as [_ Bl]. rewrite <- Hl in Bl.
  assert (Hpool : forall l, r_limit r = Num l ->
                            1 <= l /\ Z.of_nat (length pool) <= Z.min 500 (10 * l)).
  { intros l El. destruct Bl as [Bl | (l' & Bl & Hl')]; [congruence |].
    assert (l' = l) by congruence. subst l'. split; [lia |].
    pose proof (fetchNewsArticles_length store now (newsFilters r)) as H1.
    assert (Hq : q_range (news_query_of now (newsFilters r))
                 = (Num 0, Num (Z.min 500 (l * 10) - 1))).
    { unfold news_query_of, newsFilters. cbn [f_limit f_page q_range]. rewrite El.
      cbn [Math_min mul sub add lift2]. repeat f_equal; lia. }
    pose proof (Hstore _ _ _ Hq) as H2. fold pool in H1. lia. }
  split; [exact Hlen |]. split; [intros l El; apply (Hpool l El) |].
  intros p Ep Hp. rewrite Ep.
  destruct (r_limit r) as [| l] eqn:El; [apply paginate_nan_limit |].
  destruct (Hpool l eq_refl) as [Hl1 Hb].
  rewrite paginate_page by lia.
  unfold paginate. cbn [snd hasMore sub mul add lift2 lt].
  split.
  - rewrite drop_ge by nia. apply take_nil.
  - apply Z.ltb_ge. nia.
Qed.

(** Page 11 of a table of three rows, ten articles to the page. *)
Lemma X9_pages_beyond_pool_witness :
  fst (paginate
         (fst (rankedArticles
                 {| r_page := Num 11; r_limit := Num 10; r_includeBookmarks := false;
                    r_sortBy := Latest; r_minSentiment := None; r_maxAge := Num 168 |}
                 (fetchNewsArticles (table_store Samples.rows0) Samples.now0
                    (newsFilters
                       {| r_page := Num 11; r_limit := Num 10; r_includeBookmarks := false;
                          r_sortBy := Latest; r_minSentiment := None;
                          r_maxAge := Num 168 |}))
                 [] [] [] Samples.ctx0 (Samples.constant_rng 0.5%float)))
         (Num 11) (Num 10))
  = [].
Proof.
  pose proof (X9_pages_beyond_pool (fun _ => 0%float)
                [("page", "11"); ("limit", "10"); ("sortBy", "latest")]%string
                _ (table_store Samples.rows0) Samples.now0 [] [] [] Samples.ctx0
                (Samples.constant_rng 0.5%float) eq_refl
                (table_store_range Samples.rows0)) as (_ & _ & H).
  exact (proj1 (H 11 eq_refl ltac:(lia))).
Defined.

(** ** The order of the pool *)

Lemma sorted_sublist {A : Type} (R : A -> A -> Prop) (l1 l2 : list A) :
  sublist l1 l2 -> StronglySorted R l2 -> StronglySorted R l1.
Proof.
  induction 1 as [| x l1 l2 Hsub IH | x l1 l2 Hsub IH]; intros Hs.
  - constructor.
  - apply StronglySorted_cons in Hs as [Hx Hs]. apply StronglySorted_cons.
    split; [| apply IH; exact Hs].
    rewrite Forall_forall in Hx |- *. intros y Hy. apply Hx.
    eapply elem_of_sublist; [exact Hy | exact Hsub].
  - apply StronglySorted_cons in Hs as [_ Hs]. apply IH. exact Hs.
Qed.

Lemma filter_sublist {A : Type} (f : A -> bool) (l : list A) : sublist (List.filter f l) l.
Proof.
  induction l as [| x l IH]; cbn [List.filter]; [constructor |].
  destruct (f x); [apply sublist_skip | apply sublist_cons]; exact IH.
Qed.

Lemma sorted_map {A B : Type} (f : A -> B) (keyA : A -> Z) (keyB : B -> Z) (l : list A) :
  (forall a, keyB (f a) = keyA a) ->
  StronglySorted (SortSpec.descending keyA) l ->
  StronglySorted (SortSpec.descending keyB) (map f l).
Proof.
  intros Hk. induction 1 as [| x l Hs IH Hx]; cbn [map]; constructor; [exact IH |].
  rewrite Forall_forall in Hx. apply Forall_forall. intros b Hb.
  apply list_elem_of_In, in_map_iff in Hb as (a & <- & Ha).
  unfold SortSpec.descending in *. rewrite !Hk. apply Hx, list_elem_of_In, Ha.
Qed.

(** A stable sort leaves a list that is already in order as it is. *)
Lemma sort_of_sorted {A : Type} (after : A -> A -> bool) (key : A -> Z) (l : list A) :
  SortSpec.keyed_by after key l ->
  StronglySorted (SortSpec.descending key) l ->
  sort after l = l.
Proof.
  induction l as [| x l IH]; intros Hk Hs; [reflexivity |]. cbn [sort].
  apply StronglySorted_cons in Hs as [Hx Hs].
  rewrite IH; [| intros a b Ha Hb; apply Hk; right; assumption | exact Hs].
  destruct l as [| y l]; [reflexivity |]. cbn [insert].
  rewrite (Hk x y) by (repeat constructor).
  apply Forall_cons in Hx as [Hxy _]. unfold SortSpec.descending in Hxy.
  destruct (Z.ltb_spec (key x) (key y)); [lia | reflexivity].
Qed.

Lemma by_published_keyed (l : list SupabaseNewsArticle) :
  SortSpec.keyed_by by_published_after sa_published_at l.
Proof.
  intros a b _ _. unfold by_published_after.
  destruct (Z.ltb_spec 0 (sa_published_at b - sa_published_at a)),
    (Z.ltb_spec (sa_published_at a) (sa_published_at b)); lia || reflexivity.
Qed.

Lemma fetchNewsArticles_sublist (store : news_query -> response SupabaseNewsArticle)
    (now : Z) (filters : news_filters) :
  sublist (fetchNewsArticles store now filters)
    (map transformSupabaseToFlutter (data_or_empty (store (news_query_of now filters)))).
Proof.
  unfold fetchNewsArticles.
  destruct (error (store (news_query_of now filters))); [apply sublist_nil_l |].
  destruct (f_minSentiment filters); [apply filter_sublist | reflexivity].
Qed.

Lemma fetched_pool_sorted (rows : list SupabaseNewsArticle) (now : Z)
    (filters : news_filters) :
  StronglySorted (SortSpec.descending published_at)
    (fetchNewsArticles (table_store rows) now filters).
Proof.
  eapply sorted_sublist; [apply fetchNewsArticles_sublist |].
  apply (sorted_map transformSupabaseToFlutter sa_published_at); [reflexivity |].
  unfold table_store, data_or_empty.
  destruct (q_range (news_query_of now filters)) as [[| from] [| to]]; cbn [data];
    try constructor.
  destruct ((0 <=? from) && (from <=? to))%bool; cbn [data]; [| constructor].
  eapply sorted_sublist; [apply sublist_take |].
  eapply sorted_sublist; [apply sublist_drop |].
  unfold news_query_of. cbn [q_order_published_desc].
  apply SortFacts.sort_sorted, by_published_keyed.
Qed.

(** X10. The pool read from a table is in publication order, newest first,
    so the sort of the [latest] mode changes nothing: with [sortBy=latest]
    the ranked list is the pool itself (and the cached array, which that
    sort reorders in place, keeps its order). *)
Theorem X10_latest_keeps_pool
    (rows : list SupabaseNewsArticle) (now : Z) (filters : news_filters) :
  let pool := fetchNewsArticles (table_store rows) now filters in
  StronglySorted (SortSpec.descending published_at) pool /\
  (forall i j a b, pool !! i = Some a -> pool !! j = Some b -> (i < j)%nat ->
                   published_at b <= published_at a) /\
  (forall req ui up uh ctx g,
      r_sortBy req = Latest -> rankedArticles req pool ui up uh ctx g = (pool, g)).
Proof.
  intros pool.
  pose proof (fetched_pool_sorted rows now filters) as Hs. fold pool in Hs.
  split; [exact Hs |]. split.
  - intros i j a b Hi Hj Hlt.
    exact (SortFacts.sorted_lookup _ _ _ _ _ _ Hs Hi Hj Hlt).
  - intros req ui up uh ctx g Hmode. unfold rankedArticles. rewrite Hmode.
    unfold ret. f_equal. apply (sort_of_sorted _ published_at); [apply by_date_keyed | exact Hs].
Qed.

(** ** The sentiment filter *)

(** The three sentiment values against a threshold [m]. *)
Lemma sentiment_thresholds (m : float) :
  (PrimFloat.leb m (-0.3) = true -> PrimFloat.leb m 0 = true) /\
  (PrimFloat.leb m 0 = true -> PrimFloat.leb m 0.7 = true) /\
  (PrimFloat.ltb 0.7 m = true -> PrimFloat.leb m 0.7 = false) /\
  (PrimFloat.ltb 0 m = true -> PrimFloat.leb m 0 = false).
Proof.
  rewrite !leb_spec, !ltb_spec. unfold SFleb, SFltb.
  rewrite (B64Facts.SFcompare_antisym (Prim2SF 0.7) (Prim2SF m)).
  rewrite (B64Facts.SFcompare_antisym (Prim2SF 0) (Prim2SF m)).
  set (c7 := Prim2SF 0.7). vm_compute in c7. subst c7.
  set (c3 := Prim2SF (-0.3)). vm_compute in c3. subst c3.
  set (c0 := Prim2SF 0). vm_compute in c0. subst c0.
  destruct (Prim2SF m) as [[] | [] | | [] mm e]; cbn [SFcompare option_map CompOpp];
    repeat apply conj; try reflexivity; try discriminate.
  destruct (-53 ?= e)%Z; [destruct (Pos.compare_cont Eq _ mm) | |]; cbn;
    intros; try reflexivity; try discriminate.
Qed.

Lemma transform_sentiment (r : SupabaseNewsArticle) :
  let a := transformSupabaseToFlutter r in
  (sentiment_score a = 0.7%float /\
   String.eqb (toLowerCase (sentiment_label a)) "positive" = true) \/
  ((sentiment_score a = (-0.3)%float \/ sentiment_score a = 0%float) /\
   String.eqb (toLowerCase (sentiment_label a)) "positive" = false).
Proof.
  cbn [transformSupabaseToFlutter sentiment_score sentiment_label].
  rewrite mapSentimentToScore_values.
  destruct (sentiment r) as [[| c l] |]; cbn [or_str]; [right; auto | | right; auto].
  destruct (String.eqb (toLowerCase (String c l)) "positive"); [left; auto | right].
  destruct (String.eqb (toLowerCase (String c l)) "negative"); auto.
Qed.

Lemma filter_none {A : Type} (f : A -> bool) (l : list A) :
  (forall a, In a l -> f a = false) -> List.filter f l = [].
Proof.
  induction l as [| x l IH]; intros H; [reflexivity |]. cbn [List.filter].
  rewrite (H x) by (left; reflexivity). apply IH. intros a Ha. apply H. right. exact Ha.
Qed.

Lemma filter_all {A : Type} (f : A -> bool) (l : list A) :
  (forall a, In a l -> f a = true) -> List.filter f l = l.
Proof.
  induction l as [| x l IH]; intros H; [reflexivity |]. cbn [List.filter].
  rewrite (H x) by (left; reflexivity). f_equal. apply IH. intros a Ha. apply H. right. exact Ha.
Qed.

(** X11. The [minSentiment] filter works on the page the store returned,
    whatever the store: the result is the unfiltered result with the
    articles below the threshold removed. Since the normalised sentiment is
    one of 0.7, 0 and -0.3, a threshold above 0.7 empties the result, a
    threshold in (0, 0.7] keeps exactly the articles labelled positive, and
    a threshold of at most -0.3 removes nothing. *)
Theorem X11_minSentiment_filter
    (store : news_query -> response SupabaseNewsArticle) (now : Z)
    (filters : news_filters) (m : float) :
  f_minSentiment filters = Some m ->
  let unfiltered :=
    fetchNewsArticles store now
      {| f_limit := f_limit filters; f_maxAge := f_maxAge filters;
         f_page := f_page filters; f_minSentiment := None |} in
  let result := fetchNewsArticles store now filters in
  result = List.filter (fun a => PrimFloat.leb m (sentiment_score a)) unfiltered /\
  (PrimFloat.ltb 0.7 m = true -> result = []) /\
  (PrimFloat.ltb 0 m = true -> PrimFloat.leb m 0.7 = true ->
   result = List.filter
              (fun a => String.eqb (toLowerCase (sentiment_label a)) "positive") unfiltered) /\
  (PrimFloat.leb m (-0.3) = true -> result = unfiltered).
Proof.
  intros Hm unfiltered result.
  destruct (sentiment_thresholds m) as (H3 & H0 & H7 & Hpos).
  assert (Hq : news_query_of now
                 {| f_limit := f_limit filters; f_maxAge := f_maxAge filters;
                    f_page := f_page filters; f_minSentiment := None |}
               = news_query_of now filters) by reflexivity.
  assert (Hres : result
                 = List.filter (fun a => PrimFloat.leb m (sentiment_score a)) unfiltered).
  { subst result unfiltered. unfold fetchNewsArticles. rewrite Hq, Hm.
    cbn [f_minSentiment]. destruct (error (store (news_query_of now filters))); reflexivity. }
  assert (Hall : forall a, In a unfiltered -> exists r, a = transformSupabaseToFlutter r).
  { subst unfiltered. unfold fetchNewsArticles. cbn [f_minSentiment].
    destruct (error (store _)); [intros a []|].
    intros a Ha. apply in_map_iff in Ha as (r & <- & _). eauto. }
  split; [exact Hres |]. rewrite Hres. repeat apply conj.
  - intros Hhi. specialize (H7 Hhi).
    assert (E0 : PrimFloat.leb m 0 = false)
      by (destruct (PrimFloat.leb m 0); [specialize (H0 eq_refl); congruence | reflexivity]).
    assert (E3 : PrimFloat.leb m (-0.3) = false)
      by (destruct (PrimFloat.leb m (-0.3)); [specialize (H3 eq_refl); congruence | reflexivity]).
    apply filter_none. intros a Ha. destruct (Hall a Ha) as (r & ->).
    destruct (transform_sentiment r) as [[-> _] | [[-> | ->] _]]; assumption.
  - intros Hlo Hle. specialize (Hpos Hlo).
    assert (E3 : PrimFloat.leb m (-0.3) = false)
      by (destruct (PrimFloat.leb m (-0.3)); [specialize (H3 eq_refl); congruence | reflexivity]).
    apply filter_ext_in. intros a Ha. destruct (Hall a Ha) as (r & ->).
    destruct (transform_sentiment r) as [[-> ->] | [[-> | ->] ->]];
      rewrite ?Hle, ?Hpos, ?E3; reflexivity.
  - intros Hlo. pose proof (H3 Hlo) as E0. pose proof (H0 E0) as E7.
    apply filter_all. intros a Ha. destruct (Hall a Ha) as (r & ->).
    destruct (transform_sentiment r) as [[-> _] | [[-> | ->] _]]; assumption.
Qed.

(** With the threshold 0.5 only the rows labelled positive are kept. *)
Lemma X11_minSentiment_filter_witness :
  fetchNewsArticles (table_store Samples.rows0) Samples.now0 Samples.filters0
  = List.filter (fun a => String.eqb (toLowerCase (sentiment_label a)) "positive")
      (fetchNewsArticles (table_store Samples.rows0) Samples.now0
         {| f_limit := f_limit Samples.filters0; f_maxAge := f_maxAge Samples.filters0;
            f_page := f_page Samples.filters0; f_minSentiment := None |}).
Proof.
  pose proof (X11_minSentiment_filter (table_store Samples.rows0) Samples.now0
                Samples.filters0 0.5%float eq_refl) as (_ & _ & H & _).
  exact (H eq_refl eq_refl).
Defined.

(** X12. Every article [fetchNewsArticles] returns, whatever the store and
    the filters, has a non-empty [source] and a non-empty [sentiment_label],
    no image and no relevance score, and a [sentiment_score] that is the
    normalised value of its own label. *)
Theorem X12_returned_article_shape
    (store : news_query -> response SupabaseNewsArticle) (now : Z)
    (filters : news_filters) (a : DatabaseNewsArticle) :
  a ∈ fetchNewsArticles store now filters ->
  source a <> EmptyString /\
  sentiment_label a <> EmptyString /\
  image_url a = None /\
  relevance_score a = None /\
  sentiment_score a = mapSentimentToScore (Some (sentiment_label a)).
Proof.
  intros Ha.
  assert (Hr : exists r, a = transformSupabaseToFlutter r).
  { eapply elem_of_sublist in Ha; [| apply fetchNewsArticles_sublist].
    apply list_elem_of_In, in_map_iff in Ha as (r & <- & _). eauto. }
  destruct Hr as (r & ->).
  cbn [transformSupabaseToFlutter source sentiment_label image_url relevance_score
         sentiment_score].
  repeat apply conj; try reflexivity.
  - destruct (source_domain r) as [[| c s] |]; cbn [truthy_str]; try discriminate;
      destruct (category r) as [[| d t] |]; cbn [or_str]; discriminate.
  - destruct (sentiment r) as [[| c s] |]; cbn [or_str]; discriminate.
  - destruct (sentiment r) as [[| c s] |]; cbn [or_str]; reflexivity.
Qed.

Lemma X12_returned_article_shape_witness :
  source (transformSupabaseToFlutter
            (Samples.row "fresh" (90 * hour_ms) true (Some "Positive"%string)))
  <> EmptyString /\
  sentiment_score
    (transformSupabaseToFlutter
       (Samples.row "fresh" (90 * hour_ms) true (Some "Positive"%string)))
  = 0.7%float.
Proof.
  pose proof (X12_returned_article_shape (table_store Samples.rows0) Samples.now0
                Samples.filters0
                (transformSupabaseToFlutter
                   (Samples.row "fresh" (90 * hour_ms) true (Some "Positive"%string))))
    as H.
  destruct H as (Hs & _ & _ & _ & Hv); [vm_compute; left |].
  split; [exact Hs | rewrite Hv; reflexivity].
Defined.

(** ** The public feed *)



(** ** The cache of the handler *)

Lemma append_inj (p a b : string) : (p +:+ a = p +:+ b)%string -> a = b.
Proof.
  induction p as [| c p IH]; [trivial |]. rewrite !append_cons. intros [= H]. exact (IH H).
Qed.

Lemma write_key_interests {V F : Type} (JSON_stringify : F -> string)
    (w : @Cache.write V F) (u : string) :
  Cache.write_key JSON_stringify w = ("interests_" +:+ u)%string ->
  exists d, w = Cache.WInterests u d.
Proof.
  destruct w as [u' d | u' d | f d]; cbn [Cache.write_key]; intros H.
  - apply append_inj in H. subst u'. eauto.
  - rewrite !append_cons in H. discriminate.
  - rewrite !append_cons in H. discriminate.
Qed.

Lemma write_key_portfolio {V F : Type} (JSON_stringify : F -> string)
    (w : @Cache.write V F) (u : string) :
  Cache.write_key JSON_stringify w = ("portfolio_" +:+ u)%string ->
  exists d, w = Cache.WPortfolio u d.
Proof.
  destruct w as [u' d | u' d | f d]; cbn [Cache.write_key]; intros H.
  - rewrite !append_cons in H. discriminate.
  - apply append_inj in H. subst u'. eauto.
  - rewrite !append_cons in H. discriminate.
Qed.

Lemma write_key_articles {V F : Type} (JSON_stringify : F -> string)
    (w : @Cache.write V F) (f : F) :
  Cache.write_key JSON_stringify w = ("articles_" +:+ JSON_stringify f)%string ->
  exists f' d, w = Cache.WArticles f' d /\ JSON_stringify f' = JSON_stringify f.
Proof.
  destruct w as [u' d | u' d | f' d]; cbn [Cache.write_key]; intros H.
  - rewrite !append_cons in H. discriminate.
  - rewrite !append_cons in H. discriminate.
  - apply append_inj in H. eauto.
Qed.

Lemma interests_apply_write {V F : Type} (JSON_stringify : F -> string)
    (c : gmap string V) (w : @Cache.write V F) (u : string) :
  (forall d, w <> Cache.WInterests u d) ->
  Cache.getCachedUserInterests (Cache.apply_write JSON_stringify c w) u
  = Cache.getCachedUserInterests c u.
Proof.
  intros Hw. unfold Cache.getCachedUserInterests. rewrite get_apply_write.
  destruct (String.eqb_spec (Cache.write_key JSON_stringify w) ("interests_" +:+ u))
    as [E | _]; [| reflexivity].
  apply write_key_interests in E as (d & E). destruct (Hw d E).
Qed.

Lemma portfolio_apply_write {V F : Type} (JSON_stringify : F -> string)
    (c : gmap string V) (w : @Cache.write V F) (u : string) :
  (forall d, w <> Cache.WPortfolio u d) ->
  Cache.getCachedUserPortfolio (Cache.apply_write JSON_stringify c w) u
  = Cache.getCachedUserPortfolio c u.
Proof.
  intros Hw. unfold Cache.getCachedUserPortfolio. rewrite get_apply_write.
  destruct (String.eqb_spec (Cache.write_key JSON_stringify w) ("portfolio_" +:+ u))
    as [E | _]; [| reflexivity].
  apply write_key_portfolio in E as (d & E). destruct (Hw d E).
Qed.

Lemma articles_apply_write {V F : Type} (JSON_stringify : F -> string)
    (c : gmap string V) (w : @Cache.write V F) (f : F) :
  (forall f' d, w = Cache.WArticles f' d -> JSON_stringify f' <> JSON_stringify f) ->
  Cache.getCachedNewsArticles JSON_stringify (Cache.apply_write JSON_stringify c w) f
  = Cache.getCachedNewsArticles JSON_stringify c f.
Proof.
  intros Hw. unfold Cache.getCachedNewsArticles. rewrite get_apply_write.
  destruct (String.eqb_spec (Cache.write_key JSON_stringify w)
              ("articles_" +:+ JSON_stringify f)) as [E | _]; [| reflexivity].
  apply write_key_articles in E as (f' & d & E & Hf). destruct (Hw f' d E Hf).
Qed.

(** X14. Entries of different kinds or of different users never share a
    key, whatever the user ids and the filter text are: a write changes the
    cached interests of a user only if it is [cacheUserInterests] for that
    very user, likewise for portfolios, and the cached articles of a filter
    only if it is [cacheNewsArticles] for a filter with the same JSON text. *)
Theorem X14_cache_entries_separate {V F : Type} (JSON_stringify : F -> string)
    (c : gmap string V) (w : @Cache.write V F) :
  (forall u, (forall d, w <> Cache.WInterests u d) ->
             Cache.getCachedUserInterests (Cache.apply_write JSON_stringify c w) u
             = Cache.getCachedUserInterests c u) /\
  (forall u, (forall d, w <> Cache.WPortfolio u d) ->
             Cache.getCachedUserPortfolio (Cache.apply_write JSON_stringify c w) u
             = Cache.getCachedUserPortfolio c u) /\
  (forall f, (forall f' d, w = Cache.WArticles f' d ->
                           JSON_stringify f' <> JSON_stringify f) ->
             Cache.getCachedNewsArticles JSON_stringify
               (Cache.apply_write JSON_stringify c w) f
             = Cache.getCachedNewsArticles JSON_stringify c f).
Proof.
  repeat apply conj.
  - intros u. apply interests_apply_write.
  - intros u. apply portfolio_apply_write.
  - intros f. apply articles_apply_write.
Qed.

Lemma size_apply_write {V F : Type} (JSON_stringify : F -> string)
    (c : gmap string V) (w : @Cache.write V F) :
  size (Cache.apply_write JSON_stringify c w)
  = match Cache.get c (Cache.write_key JSON_stringify w) with
    | Some _ => size c
    | None => S (size c)
    end.
Proof.
  assert (H : Cache.apply_write JSON_stringify c w
              = <[Cache.write_key JSON_stringify w := Cache.write_value w]> c)
    by (destruct w; reflexivity).
  rewrite H. unfold Cache.get.
  destruct (c !! Cache.write_key JSON_stringify w) eqn:E.
  - apply map_size_insert_Some. eauto.
  - apply map_size_insert_None. exact E.
Qed.

Lemma size_run_fresh {V F : Type} (JSON_stringify : F -> string)
    (users : list string) (d : string -> V) (c : gmap string V) :
  NoDup users ->
  (forall u, u ∈ users -> Cache.getCachedUserInterests c u = None) ->
  size (Cache.run JSON_stringify (map (fun u => @Cache.WInterests V F u (d u)) users) c)
  = (size c + length users)%nat.
Proof.
  revert c. induction users as [| u users IH]; intros c Hnd Hc.
  - cbn. lia.
  - apply NoDup_cons in Hnd as [Hu Hnd]. unfold Cache.run in *. cbn [map fold_left length].
    rewrite IH; [| exact Hnd |].
    + rewrite size_apply_write. cbn [Cache.write_key].
      unfold Cache.getCachedUserInterests in Hc. rewrite (Hc u) by (left; reflexivity). lia.
    + intros u' Hu'. rewrite interests_apply_write; [apply Hc; right; exact Hu' |].
      intros d' [= E _]. subst u'. contradiction.
Qed.

Lemma get_run_mono {V F : Type} (JSON_stringify : F -> string)
    (ws : list (@Cache.write V F)) (c : gmap string V) (k : string) :
  is_Some (Cache.get c k) -> is_Some (Cache.get (Cache.run JSON_stringify ws c) k).
Proof.
  intros H. rewrite get_run.
  destruct (Cache.last_written JSON_stringify k ws); [eauto | exact H].
Qed.

(** X15. Nothing is ever removed from the cache and [maxSize] is not
    enforced: after any history of writes every key that was present is
    still present, the size has not gone down and has grown by at most one
    per write; caching the interests of [n] different users in the empty
    cache gives size [n], while the reported [maxSize] stays 1000. *)
Theorem X15_cache_never_evicts {V F : Type} (JSON_stringify : F -> string)
    (ws : list (@Cache.write V F)) (c : gmap string V) :
  (forall k, is_Some (Cache.get c k) ->
             is_Some (Cache.get (Cache.run JSON_stringify ws c) k)) /\
  (size c <= size (Cache.run JSON_stringify ws c) <= size c + length ws)%nat /\
  snd (Cache.getCacheStats (Cache.run JSON_stringify ws c)) = 1000%nat /\
  (forall (users : list string) (d : string -> V),
      NoDup users ->
      fst (Cache.getCacheStats
             (Cache.run JSON_stringify
                (map (fun u => @Cache.WInterests V F u (d u)) users) Cache.empty))
      = length users).
Proof.
  split; [intros k; apply get_run_mono |]. split; [| split; [reflexivity |]].
  - revert c. induction ws as [| w ws IH]; intros c; [cbn; lia |].
    unfold Cache.run in *. cbn [fold_left length].
    specialize (IH (Cache.apply_write JSON_stringify c w)).
    rewrite size_apply_write in IH.
    destruct (Cache.get c (Cache.write_key JSON_stringify w)); lia.
  - intros users d Hnd. cbn [Cache.getCacheStats fst].
    rewrite size_run_fresh; [unfold Cache.empty; rewrite map_size_empty; lia | exact Hnd |].
    intros u _. apply lookup_empty.
Qed.

Lemma last_written_elem {V F : Type} (JSON_stringify : F -> string)
    (ws : list (@Cache.write V F)) (w : Cache.write) :
  NoDup (map (Cache.write_key JSON_stringify) ws) ->
  w ∈ ws ->
  Cache.last_written JSON_stringify (Cache.write_key JSON_stringify w) ws
  = Some (Cache.write_value w).
Proof.
  induction ws as [| w' ws IH]; intros Hnd Hw; [apply elem_of_nil in Hw; contradiction |].
  cbn [map] in Hnd. apply NoDup_cons in Hnd as [Hfresh Hnd]. cbn [Cache.last_written].
  apply elem_of_cons in Hw as [-> | Hw].
  - rewrite last_written_none.
    + rewrite String.eqb_refl. reflexivity.
    + intros w0 Hw0 E. apply Hfresh. rewrite <- E.
      apply list_elem_of_In, in_map, list_elem_of_In, Hw0.
  - rewrite (IH Hnd Hw). reflexivity.
Qed.

Lemma cache_fills_keys {V F : Type} (JSON_stringify : F -> string)
    (c : gmap string V) (u : string) (f : F) (fr : fetches) :
  NoDup (map (Cache.write_key JSON_stringify) (cache_fills JSON_stringify c u f fr)).
Proof.
  unfold cache_fills.
  destruct (Cache.getCachedUserInterests c u), (Cache.getCachedUserPortfolio c u),
    (Cache.getCachedNewsArticles JSON_stringify c f);
    cbn [app map Cache.write_key];
    repeat (apply NoDup_cons; split;
            [rewrite ?elem_of_cons, elem_of_nil; rewrite ?append_cons;
             intros H; repeat (destruct H as [H | H]); try discriminate H; exact H |]);
    apply NoDup_nil; exact I.
Qed.

(** X16. The response always reports a cache hit. Once the writes of the
    cache misses have run, in whatever order the fetches resolve, the cache
    holds exactly the three values the request used, so the status computed
    at the end of the handler is ["HIT"] even when nothing was cached
    before; and since nothing expires, a later request for the same user
    and filters fetches nothing and uses the same three values, whatever the
    store would return by then. *)
Theorem X16_cache_filled_once {V F : Type} (JSON_stringify : F -> string)
    (c : gmap string V) (u : string) (f : F) (fr : fetches)
    (ws : list (@Cache.write V F)) :
  ws ≡ₚ cache_fills JSON_stringify c u f fr ->
  let c' := Cache.run JSON_stringify ws c in
  Cache.getCachedUserInterests c' u = Some (loaded_interests c u fr) /\
  Cache.getCachedUserPortfolio c' u = Some (loaded_portfolio c u fr) /\
  Cache.getCachedNewsArticles JSON_stringify c' f
  = Some (loaded_articles JSON_stringify c f fr) /\
  cacheHitStatus JSON_stringify c' u f = "HIT"%string /\
  (forall fr' : fetches,
      cache_fills JSON_stringify c' u f fr' = [] /\
      loaded_interests c' u fr' = loaded_interests c u fr /\
      loaded_portfolio c' u fr' = loaded_portfolio c u fr /\
      loaded_articles JSON_stringify c' f fr' = loaded_articles JSON_stringify c f fr).
Proof.
  intros Hperm c'.
  assert (Hnd : NoDup (map (Cache.write_key JSON_stringify) ws)).
  { rewrite Hperm. apply cache_fills_keys. }
  assert (Hin : forall w, w ∈ ws <-> w ∈ cache_fills JSON_stringify c u f fr)
    by (intros w; rewrite Hperm; reflexivity).
  assert (Hget : forall k,
             Cache.get c' k
             = match Cache.last_written JSON_stringify k ws with
               | Some v => Some v
               | None => Cache.get c k
               end) by (intros k; apply get_run).
  assert (H1 : Cache.getCachedUserInterests c' u = Some (loaded_interests c u fr)).
  { unfold Cache.getCachedUserInterests at 1. rewrite Hget. unfold loaded_interests.
    destruct (Cache.getCachedUserInterests c u) as [v |] eqn:E.
    - rewrite last_written_none; [exact E |].
      intros w Hw Hk. apply Hin in Hw. apply write_key_interests in Hk as (d & ->).
      unfold cache_fills in Hw. rewrite E in Hw.
      destruct (Cache.getCachedUserPortfolio c u),
        (Cache.getCachedNewsArticles JSON_stringify c f); cbn [app] in Hw;
        rewrite ?elem_of_cons, elem_of_nil in Hw;
        repeat (destruct Hw as [Hw | Hw]); try discriminate Hw; exact Hw.
    - change ("interests_" +:+ u)%string
        with (Cache.write_key JSON_stringify
                (@Cache.WInterests V F u (fresh_interests fr))).
      rewrite last_written_elem; [reflexivity | exact Hnd |].
      apply Hin. unfold cache_fills. rewrite E. left. }
  assert (H2 : Cache.getCachedUserPortfolio c' u = Some (loaded_portfolio c u fr)).
  { unfold Cache.getCachedUserPortfolio at 1. rewrite Hget. unfold loaded_portfolio.
    destruct (Cache.getCachedUserPortfolio c u) as [v |] eqn:E.
    - rewrite last_written_none; [exact E |].
      intros w Hw Hk. apply Hin in Hw. apply write_key_portfolio in Hk as (d & ->).
      unfold cache_fills in Hw. rewrite E in Hw.
      destruct (Cache.getCachedUserInterests c u),
        (Cache.getCachedNewsArticles JSON_stringify c f); cbn [app] in Hw;
        rewrite ?elem_of_cons, elem_of_nil in Hw;
        repeat (destruct Hw as [Hw | Hw]); try discriminate Hw; exact Hw.
    - change ("portfolio_" +:+ u)%string
        with (Cache.write_key JSON_stringify
                (@Cache.WPortfolio V F u (fresh_portfolio fr))).
      rewrite last_written_elem; [reflexivity | exact Hnd |].
      apply Hin. unfold cache_fills. rewrite E.
      apply elem_of_app. right. left. }
  assert (H3 : Cache.getCachedNewsArticles JSON_stringify c' f
               = Some (loaded_articles JSON_stringify c f fr)).
  { unfold Cache.getCachedNewsArticles at 1. rewrite Hget. unfold loaded_articles.
    destruct (Cache.getCachedNewsArticles JSON_stringify c f) as [v |] eqn:E.
    - rewrite last_written_none; [exact E |].
      intros w Hw Hk. apply Hin in Hw.
      apply write_key_articles in Hk as (f' & d & -> & _).
      unfold cache_fills in Hw. rewrite E in Hw.
      destruct (Cache.getCachedUserInterests c u),
        (Cache.getCachedUserPortfolio c u); cbn [app] in Hw;
        rewrite ?elem_of_cons, elem_of_nil in Hw;
        repeat (destruct Hw as [Hw | Hw]); try discriminate Hw; exact Hw.
    - change ("articles_" +:+ JSON_stringify f)%string
        with (Cache.write_key JSON_stringify
                (@Cache.WArticles V F f (fresh_articles fr))).
      rewrite last_written_elem; [reflexivity | exact Hnd |].
      apply Hin. unfold cache_fills. rewrite E.
      apply elem_of_app. right. apply elem_of_app. right. left. }
  split; [exact H1 |]. split; [exact H2 |]. split; [exact H3 |]. split.
  - unfold cacheHitStatus, isDataFromCache. rewrite H1, H2, H3.
    rewrite !bool_decide_eq_true_2 by eauto. reflexivity.
  - intros fr'. unfold cache_fills, loaded_interests, loaded_portfolio, loaded_articles.
    rewrite H1, H2, H3. repeat split; reflexivity.
Qed.

(** A first request on the empty cache, the three fetches resolving in the
    reverse order. *)
Lemma X16_cache_filled_once_witness :
  cacheHitStatus (fun n : nat => "{}"%string)
    (Cache.run (fun n : nat => "{}"%string)
       [Cache.WArticles 0%nat 3%nat; Cache.WPortfolio "u1" 2%nat; Cache.WInterests "u1" 1%nat]
       Cache.empty)
    "u1" 0%nat
  = "HIT"%string.
Proof.
  apply (X16_cache_filled_once (fun n : nat => "{}"%string) Cache.empty "u1" 0%nat
           {| fresh_interests := 1%nat; fresh_portfolio := 2%nat; fresh_articles := 3%nat |}).
  change (cache_fills (fun n : nat => "{}"%string) Cache.empty "u1" 0%nat
            {| fresh_interests := 1%nat; fresh_portfolio := 2%nat; fresh_articles := 3%nat |})
    with ([Cache.WInterests "u1" 1%nat] ++ [@Cache.WPortfolio nat nat "u1" 2%nat]
            ++ [Cache.WArticles 0%nat 3%nat]).
  rewrite (Permutation_app_comm [Cache.WInterests "u1" 1%nat]).
  rewrite (Permutation_app_comm [Cache.WPortfolio "u1" 2%nat]).
  reflexivity.
Defined.

(** ** The response *)

Lemma scores_fold_lookup (l : list DatabaseNewsArticle) (m : gmap string float)
    (i : string) (s : float) :
  fold_left
    (fun scores article =>
       match relevance_score article with
       | Some s => <[id article := s]> scores
       | None => scores
       end) l m !! i = Some s ->
  m !! i = Some s \/ exists a, a ∈ l /\ id a = i /\ relevance_score a = Some s.
Proof.
  revert m. induction l as [| x l IH]; intros m H; [left; exact H |].
  cbn [fold_left] in H. apply IH in H as [H | (a & Ha & Hi & Hs)].
  - destruct (relevance_score x) as [sx |] eqn:Ex; [| left; exact H].
    destruct (decide (id x = i)) as [E | Hne].
    + rewrite E, lookup_insert_eq in H. injection H as ->.
      right. exists x. split; [left |]. auto.
    + rewrite lookup_insert_ne in H by exact Hne. left. exact H.
  - right. exists a. split; [right; exact Ha | auto].
Qed.

Lemma scores_fold_other (l : list DatabaseNewsArticle) (m : gmap string float) (i : string) :
  i ∉ map id l ->
  fold_left
    (fun scores article =>
       match relevance_score article with
       | Some s => <[id article := s]> scores
       | None => scores
       end) l m !! i = m !! i.
Proof.
  revert m. induction l as [| x l IH]; intros m Hi; [reflexivity |].
  cbn [fold_left map] in *. apply not_elem_of_cons in Hi as [Hne Hi].
  rewrite IH by exact Hi.
  destruct (relevance_score x); [apply lookup_insert_ne; congruence | reflexivity].
Qed.

Lemma scores_fold_elem (l : list DatabaseNewsArticle) (m : gmap string float)
    (a : DatabaseNewsArticle) :
  NoDup (map id l) -> a ∈ l ->
  fold_left
    (fun scores article =>
       match relevance_score article with
       | Some s => <[id article := s]> scores
       | None => scores
       end) l m !! id a
  = match relevance_score a with Some s => Some s | None => m !! id a end.
Proof.
  revert m. induction l as [| x l IH]; intros m Hnd Ha; [apply elem_of_nil in Ha; contradiction |].
  cbn [map] in Hnd. apply NoDup_cons in Hnd as [Hx Hnd]. cbn [fold_left].
  apply elem_of_cons in Ha as [-> | Ha].
  - rewrite scores_fold_other by exact Hx.
    destruct (relevance_score x); [apply lookup_insert_eq | reflexivity].
  - rewrite (IH _ Hnd Ha). destruct (relevance_score a); [reflexivity |].
    destruct (relevance_score x); [| reflexivity].
    apply lookup_insert_ne. intros E. apply Hx. rewrite E.
    apply list_elem_of_In, in_map, list_elem_of_In, Ha.
Qed.

Lemma slice_sublist {A : Type} (l : list A) (start stop : num) : sublist (slice l start stop) l.
Proof.
  unfold slice. etransitivity; [apply sublist_take | apply sublist_drop].
Qed.

(** X17. The [relevanceScores] of a response. Every entry is the score of
    an article of the page under that article's id; when the ids of the
    page are distinct, each article's entry is its own score and an article
    without a score has no entry. In the [latest] mode on a pool that was
    just fetched no article carries a score, so the map is empty. *)
Theorem X17_relevance_scores (paginatedArticles : list DatabaseNewsArticle) :
  (forall i s,
      relevanceScores paginatedArticles !! i = Some s ->
      exists a, a ∈ paginatedArticles /\ id a = i /\ relevance_score a = Some s) /\
  (NoDup (map id paginatedArticles) ->
   forall a, a ∈ paginatedArticles ->
             relevanceScores paginatedArticles !! id a = relevance_score a) /\
  (forall store now filters req ui up uh ctx g pg lm,
      r_sortBy req = Latest ->
      paginatedArticles
      = fst (paginate
               (fst (rankedArticles req (fetchNewsArticles store now filters)
                       ui up uh ctx g)) pg lm) ->
      relevanceScores paginatedArticles = ∅).
Proof.
  repeat apply conj.
  - intros i s H. apply scores_fold_lookup in H as [H | H]; [| exact H].
    rewrite lookup_empty in H. discriminate.
  - intros Hnd a Ha. unfold relevanceScores. rewrite (scores_fold_elem _ _ _ Hnd Ha).
    destruct (relevance_score a); [reflexivity | apply lookup_empty].
  - intros store now filters req ui up uh ctx g pg lm Hmode ->.
    apply map_eq. intros i. rewrite lookup_empty.
    destruct (relevanceScores _ !! i) as [s |] eqn:E; [| reflexivity].
    apply scores_fold_lookup in E as [E | (a & Ha & _ & Hs)];
      [rewrite lookup_empty in E; discriminate |].
    exfalso. unfold paginate in Ha. cbn [fst] in Ha.
    eapply elem_of_sublist in Ha; [| apply slice_sublist].
    unfold rankedArticles in Ha. rewrite Hmode in Ha. cbn [ret fst] in Ha.
    rewrite SortFacts.sort_perm in Ha.
    eapply elem_of_sublist in Ha; [| apply fetchNewsArticles_sublist].
    apply list_elem_of_In, in_map_iff in Ha as (r & <- & _). discriminate.
Qed.

(** X18. Bookmark flags of a response: the formatted articles are the
    articles of the page in the same order, and one is flagged as
    bookmarked exactly when bookmarks were asked for, the bookmark query
    did not fail, and its id is among the ids the query returned. A failed
    query is not reported: every flag is then false. *)
Theorem X18_bookmark_flags (includeBookmarks : bool)
    (paginatedArticles : list DatabaseNewsArticle) (res : response string) :
  let bookmarked := bookmarkedArticles includeBookmarks paginatedArticles res in
  map fa_id (formattedArticles bookmarked paginatedArticles) = map id paginatedArticles /\
  (forall i fa,
      formattedArticles bookmarked paginatedArticles !! i = Some fa ->
      exists a, paginatedArticles !! i = Some a /\ fa = formatArticle bookmarked a) /\
  (forall fa,
      fa ∈ formattedArticles bookmarked paginatedArticles ->
      (fa_is_bookmarked fa = true <->
       includeBookmarks = true /\ error res = None /\ fa_id fa ∈ data_or_empty res)).
Proof.
  intros bookmarked. unfold formattedArticles. repeat apply conj.
  - rewrite map_map. reflexivity.
  - intros i fa H. rewrite list_lookup_fmap in H.
    destruct (paginatedArticles !! i) as [a |]; [| discriminate].
    injection H as <-. eauto.
  - intros fa Hfa. apply list_elem_of_In, in_map_iff in Hfa as (a & <- & Ha).
    cbn [formatArticle fa_is_bookmarked fa_id]. rewrite bool_decide_eq_true.
    subst bookmarked. unfold bookmarkedArticles, fetchUserBookmarks.
    destruct paginatedArticles as [| x l]; [destruct Ha |].
    cbn [length map]. change (0 <? S (length l))%nat with true. rewrite andb_true_r.
    destruct includeBookmarks.
    + destruct (error res) as [e |].
      * rewrite elem_of_empty. split; [contradiction | intros (_ & H & _); discriminate].
      * rewrite elem_of_list_to_set. split; [auto | intros (_ & _ & H); exact H].
    + rewrite elem_of_empty. split; [contradiction | intros (H & _); discriminate].
Qed.

(** ** Security validation *)


(** ** What ranking changes *)

Lemma unscored_zip (l : list DatabaseNewsArticle) (ds : list float) :
  length ds = length l -> map unscored (zip_with with_score l ds) = map unscored l.
Proof.
  revert ds. induction l as [| a l IH]; intros [| d ds] Hlen; try discriminate; [reflexivity |].
  cbn [zip_with map]. f_equal. apply IH. cbn in Hlen. lia.
Qed.

Lemma scored_with_rescored (g : rng) (articles : list DatabaseNewsArticle)
    (s0 : DatabaseNewsArticle -> float) :
  scored_with g (map (fun a => with_score a (s0 a)) articles) = scored_with g articles.
Proof.
  unfold scored_with. rewrite length_map.
  generalize (map score_of_draw (draws_from g (length articles))). intros ds.
  revert ds. induction articles as [| a l IH]; intros [| d ds]; try reflexivity.
  cbn [map zip_with]. f_equal. apply IH.
Qed.

(** X20. What ranking changes and what it consumes. A call of
    [rankAndFilterArticles] takes one result of [Math.random()] for each
    article and no more, so the next call continues with the following
    results; apart from the order, the articles come back with every field
    but [relevance_score] as it was; and a score an article already carries
    has no influence: it is overwritten. *)
Theorem X20_ranking_rescoring
    (articles : list DatabaseNewsArticle)
    (ui : list UserInterest) (up : list UserPortfolio) (uh : list UserNewsHistory)
    (opts : options) (g : rng) :
  let r := rankAndFilterArticles articles ui up uh opts g in
  draw (snd r) = draw g /\
  calls (snd r) = (calls g + length articles)%nat /\
  map unscored (fst r) ≡ₚ map unscored articles /\
  (forall s0 : DatabaseNewsArticle -> float,
      rankAndFilterArticles (map (fun a => with_score a (s0 a)) articles) ui up uh opts g
      = r) /\
  (forall a, calls (snd (calculateRelevanceScore a ui up uh g)) = S (calls g)).
Proof.
  intros r. subst r. rewrite rank_spec. cbn [fst snd advance draw calls].
  repeat apply conj; try reflexivity.
  - rewrite SortFacts.sort_perm. unfold scored_with. rewrite unscored_zip; [reflexivity |].
    unfold draws_from. rewrite !length_map, length_seq. reflexivity.
  - intros s0. rewrite rank_spec, scored_with_rescored, length_map. reflexivity.
Qed.

Lemma missing_none (h : Headers) (names : list string) :
  (0 <? length (Validation.missing_headers h names))%nat = false ->
  forall name, In name names -> Validation.has_header h name = true.
Proof.
  unfold Validation.missing_headers, Validation.has_header.
  induction names as [| x names IH]; intros Hlen name Hin; [destruct Hin |].
  cbn [List.filter] in Hlen.
  destruct (truthy_str (header h x)) eqn:E; [| discriminate Hlen].
  destruct Hin as [<- | Hin]; [rewrite E; reflexivity | apply IH; assumption].
Qed.

(** X21. [validateCompliance] scores 20 for each check that holds, the
    row-level-security check always among them, so the score is one of 20,
    40, 60, 80 and 100, and it passes exactly when all four header checks
    hold: a non-empty [authorization] header on the request, of whatever
    form, and on the response [X-RateLimit-Limit],
    [Access-Control-Allow-Origin] and the three security headers it looks
    at. A pair that [validateSecurity] finds no issue with therefore passes
    exactly when the response also carries [Access-Control-Allow-Origin]. *)
Theorem X21_compliance_score (request_headers response_headers : Headers) :
  let r := Validation.validateCompliance request_headers response_headers in
  let c := Validation.checks r in
  let n :=
    length (List.filter (fun b : bool => b)
              [Validation.authenticationRequired c; Validation.rateLimitingActive c;
               Validation.corsConfigured c; Validation.securityHeaders c]) in
  Validation.complianceScore r = Validation.of_Z (20 + 20 * Z.of_nat n) /\
  (Validation.c_passed r = true <->
   Validation.has_header request_headers "authorization" = true /\
   Validation.has_header response_headers "X-RateLimit-Limit" = true /\
   Validation.has_header response_headers "Access-Control-Allow-Origin" = true /\
   Validation.has_header response_headers "Strict-Transport-Security" = true /\
   Validation.has_header response_headers "X-Content-Type-Options" = true /\
   Validation.has_header response_headers "X-Frame-Options" = true) /\
  (forall processingTime,
      Validation.issues
        (Validation.validateSecurity request_headers response_headers processingTime) = [] ->
      Validation.c_passed r
      = Validation.has_header response_headers "Access-Control-Allow-Origin").
Proof.
  intros r c n. subst n c r. unfold Validation.validateCompliance.
  cbn [Validation.checks Validation.complianceScore Validation.c_passed
         Validation.rlsEnforced Validation.authenticationRequired
         Validation.rateLimitingActive Validation.corsConfigured
         Validation.securityHeaders forallb].
  assert (Hsec : forall processingTime,
             Validation.issues
               (Validation.validateSecurity request_headers response_headers processingTime)
             = [] ->
             Validation.has_header request_headers "authorization" = true /\
             Validation.has_header response_headers "X-RateLimit-Limit" = true /\
             Validation.has_header response_headers "Strict-Transport-Security" = true /\
             Validation.has_header response_headers "X-Content-Type-Options" = true /\
             Validation.has_header response_headers "X-Frame-Options" = true).
  { intros t. unfold Validation.validateSecurity.
    pose proof (missing_none response_headers Validation.rateLimitHeaders) as Hr.
    pose proof (missing_none response_headers Validation.requiredSecurityHeaders) as Hs.
    assert (Ha : Validation.has_header request_headers "authorization"
                 = match truthy_str (header request_headers "authorization") with
                   | Some _ => true | None => false end) by reflexivity.
    destruct (truthy_str (header request_headers "authorization")) as [h |];
      [destruct (startsWith h "Bearer ") |];
      destruct (0 <? length (Validation.missing_headers response_headers
                               Validation.rateLimitHeaders))%nat;
      destruct (0 <? length (Validation.missing_headers response_headers
                               Validation.requiredSecurityHeaders))%nat;
      destruct (5000 <? t);
      cbn [app Validation.issues]; intros H; try discriminate H.
    split; [exact Ha |].
    split; [apply (Hr eq_refl); cbn; auto |].
    split; [apply (Hs eq_refl); cbn; auto |].
    split; apply (Hs eq_refl); cbn; auto. }
  destruct (Validation.has_header request_headers "authorization") eqn:Ea;
    destruct (Validation.has_header response_headers "X-RateLimit-Limit") eqn:Er;
    destruct (Validation.has_header response_headers "Access-Control-Allow-Origin") eqn:Ec;
    destruct (Validation.has_header response_headers "Strict-Transport-Security") eqn:E1;
    destruct (Validation.has_header response_headers "X-Content-Type-Options") eqn:E2;
    destruct (Validation.has_header response_headers "X-Frame-Options") eqn:E3;
    cbn [andb List.filter length];
    (split; [vm_compute; reflexivity |]);
    (split;
     [split; [vm_compute; intros H; try discriminate H; repeat split; reflexivity
             | intros (H1 & H2 & H3 & H4 & H5 & H6);
               try discriminate H1; try discriminate H2; try discriminate H3;
               try discriminate H4; try discriminate H5; try discriminate H6;
               vm_compute; reflexivity]
     | intros t Ht; destruct (Hsec t Ht) as (H1 & H2 & H4 & H5 & H6);
       try discriminate H1; try discriminate H2;
       try discriminate H4; try discriminate H5; try discriminate H6;
       vm_compute; reflexivity]).
Qed.

(** ** Pages across requests *)

(** X22. Pages are cut anew from the pool at every request. With
    [sortBy=latest] the requests for the pages 1 to [n] of one pool, one
    after the other, return the first [n * limit] articles of the pool in
    order, each once. With the relevance ranking every request draws new
    scores, so this fails: for a pool of two articles and a limit of 1
    there are draws for which page 1 of one request and page 2 of the next
    show the same article, and the other one is never shown. *)
Theorem X22_pages_across_requests
    (rows : list SupabaseNewsArticle) (now : Z) (filters : news_filters)
    (ui : list UserInterest) (up : list UserPortfolio) (uh : list UserNewsHistory)
    (ctx : PersonalizationContext) :
  let pool := fetchNewsArticles (table_store rows) now filters in
  (forall (req : nat -> request) (g : nat -> rng) (lim : Z) (n : nat),
      1 <= lim ->
      (forall p, r_sortBy (req p) = Latest) ->
      concat (map (fun p =>
                     fst (paginate (fst (rankedArticles (req p) pool ui up uh ctx (g p)))
                            (Num (Z.of_nat p)) (Num lim)))
                (seq 1 n))
      = take (n * Z.to_nat lim) pool) /\
  (let first :=
     rankedArticles Samples.relevance_request [Samples.a_old; Samples.a_new]
       ui up uh ctx Samples.swapping_rng in
   let second :=
     rankedArticles Samples.relevance_request [Samples.a_old; Samples.a_new]
       ui up uh ctx (snd first) in
   map id (fst (paginate (fst first) (Num 1) (Num 1))) = ["b"%string] /\
   map id (fst (paginate (fst second) (Num 2) (Num 1))) = ["b"%string]).
Proof.
  intros pool. split.
  - intros req g lim n Hlim Hmode.
    pose proof (fetched_pool_sorted rows now filters) as Hs. fold pool in Hs.
    rewrite <- seq_shift, map_map. rewrite <- concat_chunks. f_equal.
    apply map_ext. intros i.
    unfold rankedArticles. rewrite Hmode. cbn [ret fst].
    rewrite (sort_of_sorted _ published_at pool (by_date_keyed pool) Hs).
    rewrite paginate_page by lia. do 2 f_equal. lia.
  - vm_compute. split; reflexivity.
Qed.
